(** * Calorie tracker: nutrient aggregation, portion rescaling, meal store

    A shallow embedding of the logic of [src/app/page.tsx]: the functions
    [recalculateDailyTotals], [logFood], [removeMeal], [recalculateMealTotals],
    [selectMeasurement], [handleCustomGramInput], [resetToOriginalNutrition]
    and [recalculateIngredientNutrition] of the [CalorieTracker] component.

    JavaScript numbers are IEEE 754 binary64 values; they are modelled by
    [spec_float] with the binary64 parameters, so that sums, products and
    quotients round exactly as they do in the program.  React state is an
    explicit record that every handler maps to a new record. *)

From Stdlib Require Import ZArith QArith Lia Ascii String Floats.SpecFloat.
From stdpp Require Import base option list strings gmap.

Local Close Scope Q_scope.
Local Open Scope Z_scope.

(** ** JavaScript numbers *)

Module Number.

Definition number : Type := spec_float.

Definition prec : Z := 53.
Definition emax : Z := 1024.

(** The Number nearest to an integer (round to nearest, ties to even;
    overflow gives an infinity): integer literals and [parseFloat] on a
    string of decimal digits. *)
Definition of_Z (n : Z) : number := binary_normalize prec emax n 0 false.

Definition zero : number := S754_zero false.

Definition add : number -> number -> number := SFadd prec emax.
Definition mul : number -> number -> number := SFmul prec emax.
Definition div : number -> number -> number := SFdiv prec emax.

(** [x > y], [x <= y] and [x === y]; every comparison with NaN is false. *)
Definition gt (x y : number) : bool := SFltb y x.
Definition le (x y : number) : bool := SFleb x y.
Definition strict_eq (x y : number) : bool := SFeqb x y.

(** A decimal literal [n / 10^k], such as 7.5 or 0.1: the Number nearest to
    it, which is what the correctly rounded quotient of the two integers
    gives. *)
Definition decimal (n : Z) (k : Z) : number := div (of_Z n) (of_Z (10 ^ k)).

Definition is_nan (x : number) : bool :=
  match x with S754_nan => true | _ => false end.

(** ToBoolean on a Number: [0], [-0] and NaN are falsy. *)
Definition ToBoolean (x : number) : bool :=
  match x with
  | S754_zero _ | S754_nan => false
  | _ => true
  end.

(** [x || y] where [x] may be [undefined] (an absent optional field). *)
Definition or_else (x : option number) (y : number) : number :=
  match x with
  | Some v => if ToBoolean v then v else y
  | None => y
  end.

(** A finite binary64 value in its canonical representation. *)
Definition is_finite (x : number) : bool :=
  match x with
  | S754_zero _ => true
  | S754_finite _ m e => bounded prec emax m e
  | _ => false
  end.

(** [Math.round]: a value that is not finite, or is integral, is returned
    as it is; a value in (0, 0.5) gives [+0] and one in [-0.5, -0) gives
    [-0]; otherwise the integer closest to [x], the larger one on a tie,
    which is [floor (x + 1/2)] computed exactly. *)
Definition Math_round (x : number) : number :=
  match x with
  | S754_finite s m e =>
      if 0 <=? e then x
      else
        let n := (2 * cond_Zopp s (Zpos m) + 2 ^ (- e)) / 2 ^ (1 - e) in
        if n =? 0 then S754_zero s else of_Z n
  | _ => x
  end.

(** The integer a Number stands for, when it is one ([Number.isInteger]). *)
Definition to_integer (x : number) : option Z :=
  match x with
  | S754_zero _ => Some 0
  | S754_finite s m e =>
      if 0 <=? e then Some (cond_Zopp s (Zpos m * 2 ^ e))
      else if Zpos m mod 2 ^ (- e) =? 0
           then Some (cond_Zopp s (Zpos m / 2 ^ (- e)))
           else None
  | _ => None
  end.

Definition isInteger (x : number) : bool :=
  match to_integer x with Some _ => true | None => false end.

(** The exact rational value of a finite Number. *)
Definition to_Q (x : number) : Q :=
  match x with
  | S754_finite s m e =>
      if 0 <=? e then inject_Z (cond_Zopp s (Zpos m * 2 ^ e))
      else Qmake (cond_Zopp s (Zpos m)) (Z.to_pos (2 ^ (- e)))
  | _ => 0%Q
  end.

(** The canonical representation of a non-zero integer of at most [prec]
    binary digits: the mantissa is shifted up to exactly [prec] digits. *)
Definition normal_form (s : bool) (p : positive) : number :=
  match prec - Zpos (digits2_pos p) with
  | Zpos k => S754_finite s (Pos.iter xO p k) (- Zpos k)
  | _ => S754_finite s p 0
  end.

End Number.

Export Number.

Declare Scope js_scope.
Delimit Scope js_scope with js.
Infix "+" := add : js_scope.
Infix "*" := mul : js_scope.
Infix "/" := div : js_scope.
Infix ">" := gt : js_scope.
Infix "<=" := le : js_scope.
Infix "===" := strict_eq (at level 70) : js_scope.

(** ** JavaScript strings

    A string is the sequence of its UTF-16 code units; the model covers the
    strings whose code units are below 256, one [ascii] per code unit. *)

Module JSString.

Definition is_digit (c : ascii) : bool :=
  let n := N_of_ascii c in ((48 <=? n) && (n <=? 57))%N.

Definition digit_value (c : ascii) : Z := Z.of_N (N_of_ascii c) - 48.

(** The decimal value of a string of digits, most significant first. *)
Fixpoint decimal_value (acc : Z) (s : string) : Z :=
  match s with
  | EmptyString => acc
  | String c s' => decimal_value (10 * acc + digit_value c) s'
  end.

Fixpoint all_digits (s : string) : bool :=
  match s with
  | EmptyString => true
  | String c s' => is_digit c && all_digits s'
  end.

(** [parseFloat] on a non-empty string of decimal digits, the only
    argument the program passes (the capture of [(\d+)]): the Number
    nearest to the decimal value.  Other arguments are outside the model
    and give NaN here. *)
Definition parseFloat (s : string) : number :=
  match s with
  | EmptyString => S754_nan
  | _ => if all_digits s then of_Z (decimal_value 0 s) else S754_nan
  end.

(** The code units below 256 that [trim] removes: TAB, LF, VT, FF, CR,
    SPACE and NO-BREAK SPACE. *)
Definition is_whitespace (c : ascii) : bool :=
  let n := N_of_ascii c in
  (((9 <=? n) && (n <=? 13)) || (n =? 32) || (n =? 160))%N.

Fixpoint trimStart (s : string) : string :=
  match s with
  | EmptyString => EmptyString
  | String c s' => if is_whitespace c then trimStart s' else s
  end.

Fixpoint trimEnd (s : string) : string :=
  match s with
  | EmptyString => EmptyString
  | String c s' =>
      match trimEnd s' with
      | EmptyString => if is_whitespace c then EmptyString else String c EmptyString
      | t => String c t
      end
  end.

Definition trim (s : string) : string := trimEnd (trimStart s).

Definition starts_with_g (s : string) : bool :=
  match s with
  | String c _ => Ascii.eqb c "g"
  | EmptyString => false
  end.

(** The regular expression [/(\d+)g/] matched at the head of [s], with the
    backtracking of a greedy [\d+]: the digit run is first extended as far
    as a match allows, and only then ended at this digit, where the next
    code unit has to be [g].  The result is the capture group. *)
Fixpoint match_digits_g (s : string) : option string :=
  match s with
  | EmptyString => None
  | String c s' =>
      if is_digit c then
        match match_digits_g s' with
        | Some ds => Some (String c ds)
        | None =>
            if starts_with_g s' then Some (String c EmptyString) else None
        end
      else None
  end.

(** [s.match(/(\d+)g/)]: the match at the leftmost position that has one;
    the result is [gramMatch[1]], or [None] for [null]. *)
Fixpoint match_gram (s : string) : option string :=
  match match_digits_g s with
  | Some ds => Some ds
  | None =>
      match s with
      | EmptyString => None
      | String _ s' => match_gram s'
      end
  end.

End JSString.

Export JSString.

(** ** Data model (the interfaces of page.tsx) *)

Record Nutrients := {
  calories : number;
  protein : number;
  carbs : number;
  fat : number;
}.

(** [FoodMeasure]: every field is optional. *)
Record FoodMeasure := {
  fm_label : option string;
  fm_portionDescription : option string;
  fm_unit : option string;
  fm_gramWeight : option number;
  fm_gram_weight : option number;
}.

Record AiSelectedPortion := {
  ai_gramWeight : number;
  ai_portionDescription : string;
  ai_reasoning : option string;
}.

Record SelectedPortion := {
  sp_source : option string;
  sp_reasoning : option string;
}.

Record Ingredient := {
  name : string;
  brand : string;
  serving_info : string;
  nutrients : Nutrients;
  originalNutrients : option Nutrients;
  foodMeasures : list FoodMeasure;
  selectedPortion : option SelectedPortion;
  ai_selected_portion : option AiSelectedPortion;
}.

Record Meal := {
  meal_name : string;
  meal_size : option string;
  ingredients : list Ingredient;
  total_nutrients : Nutrients;
}.

(** The parsed body of a response of [/api/analyze-food].  [ApiResponse]
    declares [dailyTotals] and [loggedMeals]; [logFood] tests both for
    presence, and reads [error] from the body of a failed response. *)
Record ApiResponse := {
  api_error : option string;
  api_dailyTotals : option Nutrients;
  api_loggedMeals : option (list Meal);
}.

(** What [await fetch(...)] and [await response.json()] deliver: a rejected
    fetch, or a response with its [ok] flag whose body either fails to
    parse (with the message of the error thrown) or parses. *)
Inductive FetchOutcome :=
| FetchRejected (message : string)
| FetchResponse (ok : bool) (body : string + ApiResponse).

(** The state of [CalorieTracker] that the handlers read and write.
    [loadingMessage] and [loadingStage] are display texts driven by a
    timer and are left out. *)
Record State := {
  foodInput : string;
  loading : bool;
  progress : Z;
  error : string;
  dailyTotals : Nutrients;
  loggedMeals : list Meal;
}.

(** ** Field updates ([setX] of React, assignments to object fields) *)

Definition setFoodInput (v : string) (st : State) : State :=
  {| foodInput := v; loading := loading st; progress := progress st;
     error := error st; dailyTotals := dailyTotals st;
     loggedMeals := loggedMeals st |}.

Definition setLoading (v : bool) (st : State) : State :=
  {| foodInput := foodInput st; loading := v; progress := progress st;
     error := error st; dailyTotals := dailyTotals st;
     loggedMeals := loggedMeals st |}.

Definition setProgress (v : Z) (st : State) : State :=
  {| foodInput := foodInput st; loading := loading st; progress := v;
     error := error st; dailyTotals := dailyTotals st;
     loggedMeals := loggedMeals st |}.

Definition setError (v : string) (st : State) : State :=
  {| foodInput := foodInput st; loading := loading st; progress := progress st;
     error := v; dailyTotals := dailyTotals st;
     loggedMeals := loggedMeals st |}.

Definition setDailyTotals (v : Nutrients) (st : State) : State :=
  {| foodInput := foodInput st; loading := loading st; progress := progress st;
     error := error st; dailyTotals := v;
     loggedMeals := loggedMeals st |}.

Definition setLoggedMeals (v : list Meal) (st : State) : State :=
  {| foodInput := foodInput st; loading := loading st; progress := progress st;
     error := error st; dailyTotals := dailyTotals st;
     loggedMeals := v |}.

(** [ingredient.nutrients = v] *)
Definition set_nutrients (v : Nutrients) (i : Ingredient) : Ingredient :=
  {| name := name i; brand := brand i; serving_info := serving_info i;
     nutrients := v; originalNutrients := originalNutrients i;
     foodMeasures := foodMeasures i; selectedPortion := selectedPortion i;
     ai_selected_portion := ai_selected_portion i |}.

(** [ingredient.originalNutrients = v] *)
Definition set_originalNutrients (v : Nutrients) (i : Ingredient) : Ingredient :=
  {| name := name i; brand := brand i; serving_info := serving_info i;
     nutrients := nutrients i; originalNutrients := Some v;
     foodMeasures := foodMeasures i; selectedPortion := selectedPortion i;
     ai_selected_portion := ai_selected_portion i |}.

(** [meal.total_nutrients = v] *)
Definition set_total_nutrients (v : Nutrients) (m : Meal) : Meal :=
  {| meal_name := meal_name m; meal_size := meal_size m;
     ingredients := ingredients m; total_nutrients := v |}.

Definition set_ingredients (v : list Ingredient) (m : Meal) : Meal :=
  {| meal_name := meal_name m; meal_size := meal_size m;
     ingredients := v; total_nutrients := total_nutrients m |}.

(** The effect on the meal list of assigning to fields of the object
    [meals[mealIndex].ingredients[ingredientIndex]].  The meal and
    ingredient objects are shared between the copied array and the state
    array, and each is referenced from one place of the list only (they
    come from parsed JSON), so the mutation is the replacement of one
    element. *)
Definition store_ingredient (mealIndex ingredientIndex : nat)
    (ingredient : Ingredient) (meals : list Meal) : list Meal :=
  match meals !! mealIndex with
  | Some meal =>
      <[mealIndex :=
          set_ingredients (<[ingredientIndex := ingredient]> (ingredients meal)) meal]>
        meals
  | None => meals
  end.

(** ** Completions: a handler returns normally or throws *)

Inductive completion (A : Type) :=
| Normal (a : A)
| Throw (message : string).

Arguments Normal {A} a.
Arguments Throw {A} message.

#[global] Instance completion_ret : MRet completion := @Normal.

#[global] Instance completion_bind : MBind completion :=
  fun A B (k : A -> completion B) (c : completion A) =>
    match c with
    | Normal a => k a
    | Throw msg => Throw msg
    end.

(** Reading a property of [l[i]]: a [TypeError] when [l[i]] is
    [undefined]. *)
Definition property_of {A : Type} (l : list A) (i : nat) : completion A :=
  match l !! i with
  | Some a => Normal a
  | None => Throw "TypeError: Cannot read properties of undefined"
  end.

(** An exception that escapes an event handler leaves the state as it
    was. *)
Definition settle (st : State) (c : completion State) : State :=
  match c with
  | Normal st' => st'
  | Throw _ => st
  end.

(** ** Nutrient aggregation *)

Definition zeroNutrients : Nutrients :=
  {| calories := zero; protein := zero; carbs := zero; fat := zero |}.

(** One step of the accumulation loops: [totals.x += n.x] for the four
    fields. *)
Definition accumulate (totals n : Nutrients) : Nutrients :=
  {| calories := (calories totals + calories n)%js;
     protein := (protein totals + protein n)%js;
     carbs := (carbs totals + carbs n)%js;
     fat := (fat totals + fat n)%js |}.

(** The loop of [recalculateMealTotals] over [meal.ingredients]
    ([sumIngredients] in the specification). *)
Definition sumIngredients (l : list Ingredient) : Nutrients :=
  fold_left (fun totals ingredient => accumulate totals (nutrients ingredient))
    l zeroNutrients.

(** The loop of [recalculateDailyTotals] over the meals. *)
Definition sumMeals (meals : list Meal) : Nutrients :=
  fold_left (fun totals meal => accumulate totals (total_nutrients meal))
    meals zeroNutrients.

Definition recalculateDailyTotals (meals : list Meal) (st : State) : State :=
  setDailyTotals (sumMeals meals) st.

Definition recalculateMealTotals (mealIndex : nat) (updatedMeals : list Meal)
    : completion (list Meal) :=
  meal ← property_of updatedMeals mealIndex;
  let totals := sumIngredients (ingredients meal) in
  Normal (<[mealIndex := set_total_nutrients totals meal]> updatedMeals).

(** ** Meal store *)

(** [l.filter((x, i) => keep(x, i))], with [i] counted from [start]. *)
Fixpoint filter_indexed {A : Type} (keep : A -> nat -> bool) (start : nat)
    (l : list A) : list A :=
  match l with
  | [] => []
  | x :: l' =>
      if keep x start then x :: filter_indexed keep (S start) l'
      else filter_indexed keep (S start) l'
  end.

Definition removeMeal (index : nat) (st : State) : State :=
  let newMeals :=
    filter_indexed (fun _ i => negb (i =? index)%nat) 0%nat (loggedMeals st) in
  recalculateDailyTotals newMeals (setLoggedMeals newMeals st).

(** The body of the [try] block of [logFood] after the fetch: the new meal
    list, or the message of the error thrown. *)
Definition receive (outcome : FetchOutcome) (current : list Meal)
    : completion (list Meal) :=
  match outcome with
  | FetchRejected message => Throw message
  | FetchResponse false (inl message) => Throw message
  | FetchResponse false (inr errorData) =>
      match api_error errorData with
      | Some (String c s) => Throw (String c s)
      | _ => Throw "Failed to process food data"
      end
  | FetchResponse true (inl message) => Throw message
  | FetchResponse true (inr data) =>
      match api_dailyTotals data, api_loggedMeals data with
      | Some _, Some batch => Normal (current ++ batch)
      | _, _ => Throw "Invalid response format from AI. Please try again."
      end
  end.

Definition logFood (outcome : FetchOutcome) (st : State) : State :=
  let userText := trim (foodInput st) in
  match userText with
  | EmptyString => setError "Please enter what you ate" st
  | _ =>
      let st1 := setProgress 5 (setLoading true (setError "" st)) in
      let st2 :=
        match receive outcome (loggedMeals st1) with
        | Normal newMeals =>
            setProgress 100
              (setFoodInput ""
                 (recalculateDailyTotals newMeals (setLoggedMeals newMeals st1)))
        | Throw message => setError message st1
        end in
      setProgress 0 (setLoading false st2)
  end.

(** ** Portion rescaling *)

(** Lines 229-244 of [recalculateIngredientNutrition]: the value of
    [originalGramWeight] when the guard is reached
    ([resolveReferenceGramWeight] in the specification). *)
Definition resolveReferenceGramWeight (ingredient : Ingredient) : number :=
  let fromServingInfo :=
    match match_gram (serving_info ingredient) with
    | Some digits => parseFloat digits
    | None => zero
    end in
  let originalGramWeight :=
    match ai_selected_portion ingredient with
    | Some portion =>
        if ToBoolean (ai_gramWeight portion) then ai_gramWeight portion
        else fromServingInfo
    | None => fromServingInfo
    end in
  match foodMeasures ingredient with
  | measure :: _ =>
      if (originalGramWeight === zero)%js
      then or_else (fm_gramWeight measure) (or_else (fm_gram_weight measure) zero)
      else originalGramWeight
  | [] => originalGramWeight
  end.

(** The object literal [newNutrients] of lines 253-258. *)
Definition scaleNutrients (original : Nutrients) (multiplier : number)
    : Nutrients :=
  {| calories := Math_round (calories original * multiplier)%js;
     protein := (Math_round (protein original * multiplier * of_Z 10) / of_Z 10)%js;
     carbs := (Math_round (carbs original * multiplier * of_Z 10) / of_Z 10)%js;
     fat := (Math_round (fat original * multiplier * of_Z 10) / of_Z 10)%js |}.

(** Lines 229-260 on one ingredient: [Some] of the mutated ingredient when
    the guard of line 246 holds, [None] when nothing is assigned
    ([rescale] in the specification). *)
Definition rescale (ingredient : Ingredient) (selectedGramWeight : number)
    : option Ingredient :=
  let originalGramWeight := resolveReferenceGramWeight ingredient in
  if (originalGramWeight > zero)%js && (selectedGramWeight > zero)%js then
    let multiplier := (selectedGramWeight / originalGramWeight)%js in
    let original :=
      match originalNutrients ingredient with
      | Some o => o
      | None => nutrients ingredient
      end in
    Some (set_nutrients (scaleNutrients original multiplier)
            (set_originalNutrients original ingredient))
  else None.

(** Lines 215-216 on one ingredient ([reset] in the specification). *)
Definition reset (ingredient : Ingredient) : option Ingredient :=
  match originalNutrients ingredient with
  | Some original => Some (set_nutrients original ingredient)
  | None => None
  end.

Definition recalculateIngredientNutrition (mealIndex ingredientIndex : nat)
    (selectedGramWeight : number) (meals : list Meal) (st : State)
    : completion State :=
  meal ← property_of meals mealIndex;
  ingredient ← property_of (ingredients meal) ingredientIndex;
  match rescale ingredient selectedGramWeight with
  | Some ingredient' =>
      updatedMeals ←
        recalculateMealTotals mealIndex
          (store_ingredient mealIndex ingredientIndex ingredient' meals);
      mret (recalculateDailyTotals updatedMeals (setLoggedMeals updatedMeals st))
  | None => mret st
  end.

Definition resetToOriginalNutrition (mealIndex ingredientIndex : nat)
    (st : State) : completion State :=
  let newMeals := loggedMeals st in
  meal ← property_of newMeals mealIndex;
  ingredient ← property_of (ingredients meal) ingredientIndex;
  match reset ingredient with
  | Some ingredient' =>
      updatedMeals ←
        recalculateMealTotals mealIndex
          (store_ingredient mealIndex ingredientIndex ingredient' newMeals);
      mret (recalculateDailyTotals updatedMeals (setLoggedMeals updatedMeals st))
  | None => mret st
  end.

Definition selectMeasurement (mealIndex ingredientIndex measureIndex : nat)
    (gramWeight : number) (st : State) : completion State :=
  let newMeals := loggedMeals st in
  recalculateIngredientNutrition mealIndex ingredientIndex gramWeight newMeals st.

Definition handleCustomGramInput (mealIndex ingredientIndex : nat)
    (customGrams : number) (st : State) : completion State :=
  if (customGrams > zero)%js then
    let newMeals := loggedMeals st in
    recalculateIngredientNutrition mealIndex ingredientIndex customGrams newMeals st
  else resetToOriginalNutrition mealIndex ingredientIndex st.

(** ** The component as a transition system

    Each user action is one event, handled to completion before the next
    one.  A request is one event as well: [logFood] appends to the meal
    list it read when it was called, and no other handler is taken to run
    between that call and the handling of the response. *)

Inductive event :=
| TypeFood (text : string)
| LogFood (outcome : FetchOutcome)
| RemoveMeal (index : nat)
| SelectMeasurement (mealIndex ingredientIndex measureIndex : nat)
    (gramWeight : number)
| CustomGramInput (mealIndex ingredientIndex : nat) (customGrams : number)
| ResetNutrition (mealIndex ingredientIndex : nat).

Definition handle (st : State) (ev : event) : State :=
  match ev with
  | TypeFood text => setFoodInput text st
  | LogFood outcome => logFood outcome st
  | RemoveMeal index => removeMeal index st
  | SelectMeasurement mi ii k w => settle st (selectMeasurement mi ii k w st)
  | CustomGramInput mi ii w => settle st (handleCustomGramInput mi ii w st)
  | ResetNutrition mi ii => settle st (resetToOriginalNutrition mi ii st)
  end.

Definition initialState : State :=
  {| foodInput := ""; loading := false; progress := 0; error := "";
     dailyTotals := zeroNutrients; loggedMeals := [] |}.

(** The states the component reaches through events that satisfy
    [allowed]. *)
Inductive reachable (allowed : event -> Prop) : State -> Prop :=
| reachable_initial : reachable allowed initialState
| reachable_handle st ev :
    reachable allowed st -> allowed ev -> reachable allowed (handle st ev).

Definition any_event (ev : event) : Prop := True.

(** ** Specification-level predicates *)

(** A meal whose stored total is the sum of its ingredients. *)
Definition consistent_meal (meal : Meal) : Prop :=
  total_nutrients meal = sumIngredients (ingredients meal).

(** The meals a request delivers, if it delivers any. *)
Definition delivered (ev : event) : list Meal :=
  match ev with
  | LogFood (FetchResponse true (inr data)) =>
      match api_loggedMeals data with
      | Some batch => batch
      | None => []
      end
  | _ => []
  end.

(** Events in which the service delivers only meals with consistent
    totals. *)
Definition consistent_delivery (ev : event) : Prop :=
  Forall consistent_meal (delivered ev).

(** The life of one ingredient: the rescales and resets applied to it. *)
Inductive adjustment :=
| Rescale (gramWeight : number)
| Reset.

Definition adjust (ingredient : Ingredient) (a : adjustment) : Ingredient :=
  match a with
  | Rescale w => default ingredient (rescale ingredient w)
  | Reset => default ingredient (reset ingredient)
  end.

Definition adjust_all (ingredient : Ingredient) (l : list adjustment)
    : Ingredient :=
  fold_left adjust l ingredient.

(** The events that rescale or reset one ingredient. *)
Definition is_adjustment (ev : event) : Prop :=
  match ev with
  | SelectMeasurement _ _ _ _ | CustomGramInput _ _ _ | ResetNutrition _ _ => True
  | _ => False
  end.

(** The ingredient that the indices of a handler address. *)
Definition ingredient_at (st : State) (mealIndex ingredientIndex : nat)
    : option Ingredient :=
  meal ← loggedMeals st !! mealIndex; ingredients meal !! ingredientIndex.

(** The meal that results from replacing one ingredient and recomputing
    the total, and the state that results from storing that meal. *)
Definition updated_meal (ingredientIndex : nat) (ingredient : Ingredient)
    (meal : Meal) : Meal :=
  let l := <[ingredientIndex := ingredient]> (ingredients meal) in
  set_total_nutrients (sumIngredients l) (set_ingredients l meal).

Definition updated_state (mealIndex ingredientIndex : nat)
    (ingredient : Ingredient) (meal : Meal) (st : State) : State :=
  let updatedMeals :=
    <[mealIndex := updated_meal ingredientIndex ingredient meal]> (loggedMeals st) in
  recalculateDailyTotals updatedMeals (setLoggedMeals updatedMeals st).

(** The nutrients a rescale starts from: the snapshot when there is one,
    the current nutrients when the ingredient has not been rescaled. *)
Definition pristine_nutrients (ingredient : Ingredient) : Nutrients :=
  match originalNutrients ingredient with
  | Some original => original
  | None => nutrients ingredient
  end.

(** [ai_selected_portion.gramWeight] is not usable: the portion is absent,
    or its weight is falsy (zero; NaN, which parsed JSON never holds). *)
Definition no_ai_weight (ingredient : Ingredient) : Prop :=
  match ai_selected_portion ingredient with
  | Some portion => ToBoolean (ai_gramWeight portion) = false
  | None => True
  end.

(** [s] ends with a decimal digit. *)
Fixpoint ends_with_digit (s : string) : bool :=
  match s with
  | EmptyString => false
  | String c EmptyString => is_digit c
  | String _ s' => ends_with_digit s'
  end.

(** Somewhere in [s] a decimal digit is immediately followed by [g]. *)
Fixpoint digit_then_g (s : string) : bool :=
  match s with
  | EmptyString => false
  | String c s' => (is_digit c && starts_with_g s') || digit_then_g s'
  end.

(** [ds] is the first sequence of digits of [s] that is immediately
    followed by the letter [g]: a whole run of digits, with no digit
    followed by [g] before it. *)
Definition first_gram (s ds : string) : Prop :=
  exists pre post : string,
    s = (pre ++ ds ++ String "g" post)%string /\
    ds <> EmptyString /\ all_digits ds = true /\
    ends_with_digit pre = false /\ digit_then_g pre = false.

(** [n] is the integer nearest to the finite Number [x], the larger one
    when two are equally near. *)
Definition nearest_integer (x : number) (n : Z) : Prop :=
  (inject_Z n - (1 # 2) <= to_Q x /\ to_Q x < inject_Z n + (1 # 2))%Q.

(** The four nutrient fields, and the exact sum of a list of integers. *)
Inductive field := Calories | Protein | Carbs | Fat.

Definition get (f : field) (n : Nutrients) : number :=
  match f with
  | Calories => calories n
  | Protein => protein n
  | Carbs => carbs n
  | Fat => fat n
  end.

Definition total (zs : list Z) : Z := foldr Z.add 0 zs.

(** ** Example data *)

Definition nutrients_of (c p cb f : number) : Nutrients :=
  {| calories := c; protein := p; carbs := cb; fat := f |}.

Definition ingredient_of (serving : string) (n : Nutrients) : Ingredient :=
  {| name := "oats"; brand := "generic"; serving_info := serving;
     nutrients := n; originalNutrients := None; foodMeasures := [];
     selectedPortion := None; ai_selected_portion := None |}.

Definition meal_of (title : string) (l : list Ingredient) : Meal :=
  {| meal_name := title; meal_size := None; ingredients := l;
     total_nutrients := sumIngredients l |}.

Definition state_of (meals : list Meal) : State :=
  {| foodInput := "two eggs"; loading := false; progress := 0; error := "";
     dailyTotals := sumMeals meals; loggedMeals := meals |}.

Definition breakfast : Meal :=
  meal_of "breakfast"
    [ingredient_of "100g" (nutrients_of (of_Z 200) (of_Z 10) (of_Z 20) (of_Z 5))].

Definition lunch : Meal :=
  meal_of "lunch"
    [ingredient_of "250g" (nutrients_of (of_Z 640) (of_Z 31) (of_Z 70) (of_Z 22));
     ingredient_of "1 cup" (nutrients_of (of_Z 90) (of_Z 3) (of_Z 12) (of_Z 4))].

Definition dinner : Meal :=
  meal_of "dinner"
    [ingredient_of "300g" (nutrients_of (of_Z 520) (of_Z 40) (of_Z 33) (of_Z 18))].

(** Three ingredients with 0.1, 0.2 and 0.3 grams of protein. *)
Definition tenths : list Ingredient :=
  [ingredient_of "10g" (nutrients_of (of_Z 1) (decimal 1 1) zero zero);
   ingredient_of "10g" (nutrients_of (of_Z 2) (decimal 2 1) zero zero);
   ingredient_of "10g" (nutrients_of (of_Z 3) (decimal 3 1) zero zero)].

(** A well-formed response that delivers [lunch], with a [dailyTotals]
    field of the service's own. *)
Definition lunch_response (serviceTotals : Nutrients) : ApiResponse :=
  {| api_error := None; api_dailyTotals := Some serviceTotals;
     api_loggedMeals := Some [lunch] |}.

(** A response without the [dailyTotals] field. *)
Definition response_without_totals : ApiResponse :=
  {| api_error := None; api_dailyTotals := None;
     api_loggedMeals := Some [lunch] |}.

(** A meal as the service may deliver it: the total does not match the
    single ingredient. *)
Definition mislabelled : Meal :=
  {| meal_name := "snack"; meal_size := None;
     ingredients :=
       [ingredient_of "100g" (nutrients_of (of_Z 200) (of_Z 10) (of_Z 20) (of_Z 5))];
     total_nutrients := nutrients_of (of_Z 500) (of_Z 10) (of_Z 20) (of_Z 5) |}.

Definition mislabelled_response : ApiResponse :=
  {| api_error := None; api_dailyTotals := Some zeroNutrients;
     api_loggedMeals := Some [mislabelled] |}.


(** An ingredient whose values are finer than the rescaler's grid:
    100.5 kcal, 0.25 g protein, 12.34 g carbs, 0.04 g fat per 100 g. *)
Definition fine_grained : Ingredient :=
  ingredient_of "100g"
    (nutrients_of (decimal 1005 1) (decimal 25 2) (decimal 1234 2) (decimal 4 2)).

(** An ingredient with an energy of 1e308 per gram. *)
Definition enormous : Ingredient :=
  ingredient_of "1g" (nutrients_of (of_Z (10 ^ 308)) zero zero zero).

(** ** Further specification-level notions *)

(** Every code unit of [s] is one that [trim] removes. *)
Fixpoint all_whitespace (s : string) : bool :=
  match s with
  | EmptyString => true
  | String c s' => is_whitespace c && all_whitespace s'
  end.

(** The outcomes of a request that make the [try] block of [logFood]
    throw: everything but an ok response that carries both fields. *)
Definition failed (outcome : FetchOutcome) : Prop :=
  match outcome with
  | FetchResponse true (inr data) =>
      api_dailyTotals data = None \/ api_loggedMeals data = None
  | _ => True
  end.

(** The message [logFood] reports for a failed outcome. *)
Definition failure_message (outcome : FetchOutcome) : string :=
  match outcome with
  | FetchRejected message => message
  | FetchResponse _ (inl message) => message
  | FetchResponse false (inr errorData) =>
      match api_error errorData with
      | Some e => if decide (e = EmptyString) then "Failed to process food data" else e
      | None => "Failed to process food data"
      end
  | FetchResponse true (inr _) =>
      "Invalid response format from AI. Please try again."
  end.

(** Two ingredients that differ at most in [nutrients] and
    [originalNutrients]. *)
Definition same_identity (a b : Ingredient) : Prop :=
  name a = name b /\ brand a = brand b /\ serving_info a = serving_info b /\
  foodMeasures a = foodMeasures b /\ selectedPortion a = selectedPortion b /\
  ai_selected_portion a = ai_selected_portion b.

(** A failed HTTP response whose body nevertheless carries meals. *)
Definition refused_with_meals : ApiResponse :=
  {| api_error := Some "quota exceeded"; api_dailyTotals := Some zeroNutrients;
     api_loggedMeals := Some [lunch] |}.

(** The position of the ingredient that a rescale or reset event
    addresses. *)
Definition addressed (ev : event) : option (nat * nat) :=
  match ev with
  | SelectMeasurement mi ii _ _ | CustomGramInput mi ii _ | ResetNutrition mi ii =>
      Some (mi, ii)
  | _ => None
  end.

(** An ingredient whose AI portion carries a negative weight, although its
    serving text and its first food measure both give 30 g. *)
Definition miscalibrated : Ingredient :=
  {| name := "granola"; brand := "generic"; serving_info := "1 bar (30g)";
     nutrients := nutrients_of (of_Z 120) (of_Z 3) (of_Z 20) (of_Z 4);
     originalNutrients := None;
     foodMeasures :=
       [{| fm_label := Some "bar"; fm_portionDescription := None;
           fm_unit := None; fm_gramWeight := Some (of_Z 30);
           fm_gram_weight := None |}];
     selectedPortion := None;
     ai_selected_portion :=
       Some {| ai_gramWeight := of_Z (-30); ai_portionDescription := "1 bar";
               ai_reasoning := None |} |}.

(** An ingredient whose serving text gives the weight with a decimal
    point. *)
Definition spoonful : Ingredient :=
  ingredient_of "1 tsp (4.25g)"
    (nutrients_of (of_Z 16) zero (of_Z 4) zero).

(** ** Progress simulation

    [simulateProgress] starts a timer whose callback advances a counter
    through four stages and shows it with [updateProgress].  The callback
    is modelled as a function of the closure variables [currentProgress]
    and [stageIndex] and of the three displayed state variables; how many
    times it has run is the only thing the timer adds. *)

Record Stage := {
  stage_max : Z;
  stage_message : string;
  stage_stage : string;
}.

Definition stages : list Stage :=
  [ {| stage_max := 20; stage_message := "Extracting food items...";
       stage_stage := "AI is reading your input..." |};
    {| stage_max := 40; stage_message := "Searching database...";
       stage_stage := "Finding matching foods..." |};
    {| stage_max := 60; stage_message := "Analyzing nutrition...";
       stage_stage := "AI is selecting best matches..." |};
    {| stage_max := 85; stage_message := "Calculating totals...";
       stage_stage := "Processing nutrition data..." |} ].

Record Simulation := {
  currentProgress : Z;
  stageIndex : nat;
  loadingMessage : string;
  loadingStage : string;
  shownProgress : Z;
}.

Definition updateProgress (message stage : string) (progressValue : Z)
    (s : Simulation) : Simulation :=
  {| currentProgress := currentProgress s; stageIndex := stageIndex s;
     loadingMessage := message; loadingStage := stage;
     shownProgress := progressValue |}.

(** The state when the timer starts: [logFood] has just shown 5 percent,
    and [simulateProgress] has initialised its two variables. *)
Definition simulateProgress : Simulation :=
  {| currentProgress := 5; stageIndex := 0;
     loadingMessage := "Analyzing your food...";
     loadingStage := "Extracting food items..."; shownProgress := 5 |}.

(** One run of the timer callback.  [stages[stageIndex]] is read first; an
    index outside the table would throw, which leaves everything as it
    is. *)
Definition tick (s : Simulation) : Simulation :=
  match stages !! stageIndex s with
  | Some current =>
      if currentProgress s <? stage_max current then
        let p := currentProgress s + 1 in
        updateProgress (stage_message current) (stage_stage current) p
          {| currentProgress := p; stageIndex := stageIndex s;
             loadingMessage := loadingMessage s; loadingStage := loadingStage s;
             shownProgress := shownProgress s |}
      else if (stageIndex s <? length stages - 1)%nat then
        {| currentProgress := currentProgress s; stageIndex := S (stageIndex s);
           loadingMessage := loadingMessage s; loadingStage := loadingStage s;
           shownProgress := shownProgress s |}
      else s
  | None => s
  end.

(** The state after the callback has run [n] times. *)
Definition ticks (n : nat) : Simulation := Nat.iter n tick simulateProgress.

(** The texts that belong to a displayed percentage. *)
Definition texts_at (p : Z) : string * string :=
  if p <=? 5 then ("Analyzing your food...", "Extracting food items...")
  else if p <=? 20 then ("Extracting food items...", "AI is reading your input...")
  else if p <=? 40 then ("Searching database...", "Finding matching foods...")
  else if p <=? 60 then ("Analyzing nutrition...", "AI is selecting best matches...")
  else ("Calculating totals...", "Processing nutrition data...").

(** The range of the counter while the simulation is in a stage. *)
Definition stage_range (k : nat) (p : Z) : Prop :=
  match k with
  | 0%nat => 5 <= p <= 20
  | 1%nat => 20 <= p <= 40
  | 2%nat => 40 <= p <= 60
  | 3%nat => 60 <= p <= 85
  | _ => False
  end.

Definition simulation_invariant (s : Simulation) : Prop :=
  shownProgress s = currentProgress s /\
  stage_range (stageIndex s) (currentProgress s) /\
  (loadingMessage s, loadingStage s) = texts_at (shownProgress s).

(** ** The webpack hook of next.config.ts

    [config.node] is an object of options, each a boolean or a text, or is
    absent; the rest of the configuration is not looked at. *)

Inductive NodeOption :=
| OptionFlag (b : bool)
| OptionText (s : string).

Record WebpackConfig (Rest : Type) := {
  node : option (gmap string NodeOption);
  rest : Rest;
}.

Arguments node {Rest} _.
Arguments rest {Rest} _.

(** [webpack(config, { isServer })]: on the server build the two options
    are written over a copy of [config.node] (an absent [config.node]
    spreads to no options); the configuration is returned. *)
Definition webpack {Rest : Type} (config : WebpackConfig Rest) (isServer : bool)
    : WebpackConfig Rest :=
  if isServer then
    {| node :=
         Some (<["__filename" := OptionFlag true]>
                 (<["__dirname" := OptionFlag true]> (default ∅ (node config))));
       rest := rest config |}
  else config.

(** ** Further notions for the store *)



(** A response that delivers one meal. *)
Definition single_response (meal : Meal) : ApiResponse :=
  {| api_error := None; api_dailyTotals := Some zeroNutrients;
     api_loggedMeals := Some [meal] |}.

(** ** Facts about Numbers *)

Lemma digits2_pos_bounds p :
  2 ^ (Zpos (digits2_pos p) - 1) <= Zpos p < 2 ^ Zpos (digits2_pos p).
Proof.
  induction p as [p IH|p IH|]; cbn [digits2_pos].
  - rewrite Pos2Z.inj_succ, Z.pow_succ_r by lia.
    replace (Z.succ (Z.pos (digits2_pos p)) - 1)
      with (Z.succ (Z.pos (digits2_pos p) - 1)) by lia.
    rewrite Z.pow_succ_r by lia. lia.
  - rewrite Pos2Z.inj_succ, Z.pow_succ_r by lia.
    replace (Z.succ (Z.pos (digits2_pos p)) - 1)
      with (Z.succ (Z.pos (digits2_pos p) - 1)) by lia.
    rewrite Z.pow_succ_r by lia. lia.
  - cbn. lia.
Qed.

Lemma digits2_pos_le p d : Zpos p < 2 ^ d -> 0 <= d -> Zpos (digits2_pos p) <= d.
Proof.
  intros Hp Hd. destruct (Z.le_gt_cases (Zpos (digits2_pos p)) d) as [|Hgt]; [done|].
  pose proof (digits2_pos_bounds p) as [Hlo _].
  assert (2 ^ d <= 2 ^ (Zpos (digits2_pos p) - 1)) by (apply Z.pow_le_mono_r; lia).
  lia.
Qed.

Lemma digits2_pos_iter_xO p k :
  digits2_pos (Pos.iter xO p k) = (digits2_pos p + k)%positive.
Proof.
  induction k as [|k IH] using Pos.peano_ind.
  - cbn. lia.
  - rewrite Pos.iter_succ. cbn [digits2_pos]. rewrite IH. lia.
Qed.

Lemma Zpos_iter_xO p k : Zpos (Pos.iter xO p k) = Zpos p * 2 ^ Zpos k.
Proof.
  induction k as [|k IH] using Pos.peano_ind.
  - cbn. lia.
  - rewrite Pos.iter_succ, Pos2Z.inj_xO, IH, Pos2Z.inj_succ, Z.pow_succ_r by lia.
    lia.
Qed.

(** A mantissa of exactly [prec] digits with an exponent in range is left
    alone by the rounding step. *)
Lemma binary_round_aux_canonical s m e :
  Zpos (digits2_pos m) = prec -> 3 - emax - prec <= e <= emax - prec ->
  binary_round_aux prec emax s (Zpos m) e loc_Exact = S754_finite s m e.
Proof.
  intros Hd He. unfold binary_round_aux, shr_fexp, shr_record_of_loc.
  cbn [Zdigits2].
  assert (Hf : fexp prec emax (Zpos (digits2_pos m) + e) - e = 0).
  { unfold fexp, SpecFloat.emin. rewrite Hd. unfold prec, emax in *. lia. }
  rewrite Hf. cbn [shr shr_m loc_of_shr_record round_nearest_even Zdigits2].
  rewrite Hf. cbn [shr shr_m].
  destruct (Z.leb_spec e (emax - prec)); [reflexivity | lia].
Qed.

Lemma binary_round_small s p :
  Zpos (digits2_pos p) <= prec -> binary_round prec emax s p 0 = normal_form s p.
Proof.
  intros Hd. unfold binary_round, normal_form, shl_align.
  assert (Hf : fexp prec emax (Zpos (digits2_pos p) + 0)
               = Zpos (digits2_pos p) - prec).
  { unfold fexp, SpecFloat.emin, prec, emax in *. lia. }
  rewrite Hf, Z.sub_0_r.
  destruct (prec - Zpos (digits2_pos p)) as [|k|k] eqn:Hk.
  - replace (Zpos (digits2_pos p) - prec) with 0 by lia.
    apply binary_round_aux_canonical; unfold prec, emax in *; lia.
  - replace (Zpos (digits2_pos p) - prec) with (Zneg k) by lia.
    apply binary_round_aux_canonical.
    + rewrite digits2_pos_iter_xO. lia.
    + unfold prec, emax in *. lia.
  - lia.
Qed.

Lemma to_integer_normal_form s p :
  to_integer (normal_form s p) = Some (cond_Zopp s (Zpos p)).
Proof.
  unfold normal_form.
  destruct (prec - Zpos (digits2_pos p)) as [|k|k]; cbn [to_integer].
  - cbn. do 2 f_equal. lia.
  - replace (0 <=? - Zpos k) with false by (symmetry; apply Z.leb_gt; lia).
    rewrite Z.opp_involutive, Zpos_iter_xO.
    rewrite Z.mod_mul by lia. cbn [Z.eqb]. rewrite Z.div_mul by lia. done.
  - cbn. do 2 f_equal. lia.
Qed.

(** Integers below [2^53] in magnitude are Numbers, exactly. *)
Lemma to_integer_of_Z n : Z.abs n < 2 ^ prec -> to_integer (of_Z n) = Some n.
Proof.
  intros Hn. destruct n as [|p|p]; [done| |]; unfold of_Z, binary_normalize.
  - rewrite binary_round_small, to_integer_normal_form; [done|].
    apply digits2_pos_le; unfold prec in *; lia.
  - rewrite binary_round_small, to_integer_normal_form; [done|].
    apply digits2_pos_le; unfold prec in *; lia.
Qed.

Lemma bounded_mantissa m e : bounded prec emax m e = true -> Zpos m < 2 ^ prec.
Proof.
  unfold bounded, canonical_mantissa, fexp, SpecFloat.emin.
  intros [Hc _]%andb_true_iff. apply Z.eqb_eq in Hc.
  pose proof (digits2_pos_bounds m) as [_ Hhi].
  assert (Zpos (digits2_pos m) <= prec) by lia.
  assert (2 ^ Zpos (digits2_pos m) <= 2 ^ prec) by (apply Z.pow_le_mono_r; lia).
  lia.
Qed.

(** [floor ((2a + P) / 2P)] is the integer nearest to [a / P]. *)
Lemma round_quotient_bounds a P :
  0 < P -> let N := (2 * a + P) / (2 * P) in
  (2 * N - 1) * P <= 2 * a < (2 * N + 1) * P.
Proof.
  intros HP N.
  pose proof (Z.mul_div_le (2 * a + P) (2 * P) ltac:(lia)) as Hlo.
  pose proof (Z.mul_succ_div_gt (2 * a + P) (2 * P) ltac:(lia)) as Hhi.
  fold N in Hlo, Hhi. lia.
Qed.

Lemma round_quotient_small a P :
  2 <= P -> Z.abs a < 2 ^ prec -> Z.abs ((2 * a + P) / (2 * P)) < 2 ^ prec.
Proof.
  intros HP Ha.
  pose proof (round_quotient_bounds a P ltac:(lia)) as Hb. cbn zeta in Hb.
  set (N := (2 * a + P) / (2 * P)) in *.
  assert (0 < 2 ^ prec) by (apply Z.pow_pos_nonneg; unfold prec; lia).
  nia.
Qed.

(** On a finite Number, [Math.round] returns the nearest integer. *)
Lemma Math_round_nearest x :
  is_finite x = true ->
  exists n, to_integer (Math_round x) = Some n /\ nearest_integer x n.
Proof.
  unfold nearest_integer.
  destruct x as [s|s| |s m e]; cbn [is_finite]; try discriminate; intros Hx.
  - exists 0. split; [done|]. unfold Qle, Qlt. cbn. lia.
  - cbn [Math_round to_Q]. destruct (Z.leb_spec 0 e) as [He|He].
    + exists (cond_Zopp s (Zpos m * 2 ^ e)). cbn [to_integer].
      replace (0 <=? e) with true by (symmetry; apply Z.leb_le; lia).
      split; [done|]. unfold Qle, Qlt. cbn. lia.
    + pose proof (bounded_mantissa m e Hx) as Hm.
      replace (1 - e) with (Z.succ (- e)) by lia.
      rewrite Z.pow_succ_r by lia.
      assert (HP : 2 <= 2 ^ (- e)).
      { change 2 with (2 ^ 1) at 1. apply Z.pow_le_mono_r; lia. }
      set (P := 2 ^ (- e)) in *. set (a := cond_Zopp s (Zpos m)).
      assert (Ha : Z.abs a < 2 ^ prec) by (subst a; destruct s; cbn; lia).
      pose proof (round_quotient_bounds a P ltac:(lia)) as Hb. cbn zeta in Hb.
      pose proof (round_quotient_small a P HP Ha) as Hs.
      set (N := (2 * a + P) / (2 * P)) in *.
      exists N. split.
      * destruct (Z.eqb_spec N 0) as [->|_]; [done|].
        by apply to_integer_of_Z.
      * unfold Qle, Qlt. cbn [Qnum Qden Qminus Qplus Qopp inject_Z].
        rewrite Z2Pos.id by lia. cbn. lia.
Qed.

Lemma Math_round_isInteger x : is_finite x = true -> isInteger (Math_round x) = true.
Proof.
  intros Hx. destruct (Math_round_nearest x Hx) as (n & Hn & _).
  unfold isInteger. by rewrite Hn.
Qed.

(** The guard of line 246 fails for a weight that is zero or negative. *)
Lemma le_zero_not_gt w : (w <= zero)%js = true -> (w > zero)%js = false.
Proof. by destruct w as [[]|[]| |[] m e]. Qed.

Lemma eq_zero_not_gt w : (w === zero)%js = true -> (w > zero)%js = false.
Proof. by destruct w as [[]|[]| |[] m e]. Qed.

Lemma truthy_not_zero w : ToBoolean w = true -> (w === zero)%js = false.
Proof. by destruct w as [[]|[]| |[] m e]. Qed.

Lemma gt_zero_truthy w : (w > zero)%js = true -> ToBoolean w = true.
Proof. by destruct w as [[]|[]| |[] m e]. Qed.

(** Addition of Numbers is commutative. *)
Lemma add_comm x y : (x + y)%js = (y + x)%js.
Proof.
  destruct x as [[]|[]| |sx mx ex], y as [[]|[]| |sy my ey]; try reflexivity.
  unfold add, SFadd. by rewrite Z.add_comm, (Z.min_comm ex ey).
Qed.

(** The first two terms of an accumulation that starts from [0] can be
    exchanged. *)
Lemma add_zero_swap x y : (zero + x + y)%js = (zero + y + x)%js.
Proof.
  destruct x as [[]|[]| |sx mx ex], y as [[]|[]| |sy my ey]; try reflexivity.
  change (zero + S754_finite sx mx ex)%js with (S754_finite sx mx ex).
  change (zero + S754_finite sy my ey)%js with (S754_finite sy my ey).
  apply add_comm.
Qed.

(** The shifts of the rounding step, on a mantissa that ends in zeros. *)
Lemma iter_pos_Pos_iter {A} (f : A -> A) n x : SpecFloat.iter_pos f n x = Pos.iter f x n.
Proof.
  revert x. induction n as [n IH|n IH|]; intros x; cbn.
  - rewrite !IH. by rewrite !Pos.iter_swap.
  - by rewrite !IH.
  - done.
Qed.

Lemma shr_trailing_zeros m r :
  SpecFloat.iter_pos shr_1 r {| shr_m := Zpos (Pos.iter xO m r); shr_r := false; shr_s := false |}
  = {| shr_m := Zpos m; shr_r := false; shr_s := false |}.
Proof.
  rewrite iter_pos_Pos_iter. revert m.
  induction r as [|r IH] using Pos.peano_ind; intros m.
  - done.
  - rewrite Pos.iter_succ_r, Pos.iter_succ. cbn [shr_1 orb]. apply IH.
Qed.

Lemma iter_xO_add p a b : Pos.iter xO (Pos.iter xO p a) b = Pos.iter xO p (a + b).
Proof. by rewrite Pos.add_comm, Pos.iter_add. Qed.

(** Rounding an integer that is given with trailing zero bits. *)
Lemma binary_round_scaled s p k :
  Zpos (digits2_pos p) <= prec ->
  binary_round prec emax s (Pos.iter xO p k) (- Zpos k) = normal_form s p.
Proof.
  intros Hd. unfold binary_round, shl_align.
  rewrite digits2_pos_iter_xO.
  assert (Hf : fexp prec emax (Zpos (digits2_pos p + k) + - Zpos k)
               = Zpos (digits2_pos p) - prec).
  { unfold fexp, SpecFloat.emin, prec, emax in *. lia. }
  rewrite Hf. unfold normal_form.
  destruct (Zpos (digits2_pos p) - prec - - Zpos k) as [|r|r] eqn:Hr.
  - replace (prec - Zpos (digits2_pos p)) with (Zpos k) by lia.
    apply binary_round_aux_canonical.
    + rewrite digits2_pos_iter_xO. lia.
    + unfold prec, emax in *. lia.
  - (* more trailing zeros than needed: they are shifted out *)
    unfold binary_round_aux, shr_fexp, shr_record_of_loc. cbn [Zdigits2].
    rewrite digits2_pos_iter_xO, Hf, Hr. cbn [shr].
    assert (Hk : (r <= k)%positive) by lia.
    destruct (Pos.eq_dec r k) as [->|Hne].
    + rewrite shr_trailing_zeros.
      cbn [shr_m loc_of_shr_record round_nearest_even Zdigits2].
      assert (Hd53 : Zpos (digits2_pos p) = prec) by lia.
      replace (fexp prec emax (Zpos (digits2_pos p) + (- Zpos k + Zpos k))
               - (- Zpos k + Zpos k)) with 0
        by (unfold fexp, SpecFloat.emin, prec, emax in *; lia).
      cbn [shr shr_m]. replace (prec - Zpos (digits2_pos p)) with 0 by lia.
      replace (- Zpos k + Zpos k) with 0 by lia. reflexivity.
    + assert (Hkr : exists k', k = (k' + r)%positive)
        by (exists (k - r)%positive; lia).
      destruct Hkr as [k' ->]. clear Hk Hne.
      rewrite <- iter_xO_add, shr_trailing_zeros.
      cbn [shr_m loc_of_shr_record round_nearest_even Zdigits2].
      rewrite digits2_pos_iter_xO.
      replace (fexp prec emax (Zpos (digits2_pos p + k') + (- Zpos (k' + r) + Zpos r))
               - (- Zpos (k' + r) + Zpos r)) with 0
        by (unfold fexp, SpecFloat.emin, prec, emax in *; lia).
      cbn [shr shr_m].
      replace (prec - Zpos (digits2_pos p)) with (Zpos k') by lia.
      replace (- Zpos (k' + r) + Zpos r) with (- Zpos k') by lia.
      destruct (Z.leb_spec (- Zpos k') (emax - prec)); [done|].
      unfold prec, emax in *; lia.
  - replace (prec - Zpos (digits2_pos p)) with (Zpos (k + r)) by lia.
    rewrite iter_xO_add.
    replace (Zpos (digits2_pos p) - prec) with (- Zpos (k + r)) by lia.
    apply binary_round_aux_canonical.
    + rewrite digits2_pos_iter_xO. lia.
    + unfold prec, emax in *. lia.
Qed.

Lemma normal_form_shape s p :
  exists m e, normal_form s p = S754_finite s m e /\ e <= 0 /\
              Zpos m = Zpos p * 2 ^ (- e).
Proof.
  unfold normal_form. destruct (prec - Zpos (digits2_pos p)) as [|k|k].
  - exists p, 0. repeat split; [lia | cbn; lia].
  - exists (Pos.iter xO p k), (- Zpos k). repeat split; [lia|].
    by rewrite Zpos_iter_xO, Z.opp_involutive.
  - exists p, 0. repeat split; [lia | cbn; lia].
Qed.

Lemma of_Z_shape n :
  n <> 0 -> Z.abs n < 2 ^ prec ->
  exists m e, of_Z n = S754_finite (n <? 0) m e /\ e <= 0 /\
              cond_Zopp (n <? 0) (Zpos m) = n * 2 ^ (- e).
Proof.
  intros Hn Hb. destruct n as [|p|p]; [done| |]; unfold of_Z, binary_normalize;
    (rewrite binary_round_small by (apply digits2_pos_le; unfold prec in *; lia));
    destruct (normal_form_shape (Z.neg p <? 0) p) as (m & e & Hm & He & Hv);
    [destruct (normal_form_shape false p) as (m' & e' & Hm' & He' & Hv');
     exists m', e'; by repeat split|].
  exists m, e. repeat split; [done|done|]. cbn [Z.ltb Z.compare cond_Zopp]. lia.
Qed.

Lemma shl_align_value m e e' :
  e' <= e -> Zpos (fst (shl_align m e e')) = Zpos m * 2 ^ (e - e').
Proof.
  intros He. unfold shl_align. destruct (e' - e) as [|d|d] eqn:Hd.
  - replace (e - e') with 0 by lia. cbn [fst]. lia.
  - lia.
  - cbn [fst]. rewrite Zpos_iter_xO. f_equal. f_equal. lia.
Qed.

Lemma binary_normalize_scaled n K :
  0 <= K -> Z.abs n < 2 ^ prec ->
  binary_normalize prec emax (n * 2 ^ K) (- K) false = of_Z n.
Proof.
  intros HK Hn. unfold of_Z.
  destruct K as [|k|k]; [by rewrite Z.mul_1_r| |lia].
  destruct n as [|p|p]; [done| |].
  - rewrite <- Zpos_iter_xO. cbn [binary_normalize].
    rewrite binary_round_scaled, binary_round_small; [done| |];
      apply digits2_pos_le; unfold prec in *; lia.
  - replace (Z.neg p * 2 ^ Z.pos k) with (Z.neg (Pos.iter xO p k))
      by (rewrite <- Pos2Z.opp_pos, Zpos_iter_xO; lia).
    cbn [binary_normalize].
    rewrite binary_round_scaled, binary_round_small; [done| |];
      apply digits2_pos_le; unfold prec in *; lia.
Qed.

(** Addition of integers is exact while the result stays below [2^53]. *)
Lemma add_of_Z a b :
  Z.abs a < 2 ^ prec -> Z.abs b < 2 ^ prec -> Z.abs (a + b) < 2 ^ prec ->
  (of_Z a + of_Z b)%js = of_Z (a + b).
Proof.
  intros Ha Hb Hab.
  destruct (Z.eq_dec a 0) as [->|Ha0].
  { destruct (Z.eq_dec b 0) as [->|Hb0]; [done|].
    destruct (of_Z_shape b Hb0 Hb) as (m & e & Hm & _). by rewrite Z.add_0_l, Hm. }
  destruct (Z.eq_dec b 0) as [->|Hb0].
  { destruct (of_Z_shape a Ha0 Ha) as (m & e & Hm & _). by rewrite Z.add_0_r, Hm. }
  destruct (of_Z_shape a Ha0 Ha) as (ma & ea & -> & Hea & Hva).
  destruct (of_Z_shape b Hb0 Hb) as (mb & eb & -> & Heb & Hvb).
  unfold add, SFadd.
  rewrite <- (binary_normalize_scaled (a + b) (- Z.min ea eb)) by lia.
  rewrite Z.opp_involutive. f_equal.
  assert (Hsa : cond_Zopp (a <? 0) (Zpos (fst (shl_align ma ea (Z.min ea eb))))
                = a * 2 ^ (- Z.min ea eb)).
  { rewrite shl_align_value by lia.
    replace (- Z.min ea eb) with (- ea + (ea - Z.min ea eb)) by lia.
    rewrite Z.pow_add_r, Z.mul_assoc, <- Hva by lia. by destruct (a <? 0); cbn; lia. }
  assert (Hsb : cond_Zopp (b <? 0) (Zpos (fst (shl_align mb eb (Z.min ea eb))))
                = b * 2 ^ (- Z.min ea eb)).
  { rewrite shl_align_value by lia.
    replace (- Z.min ea eb) with (- eb + (eb - Z.min ea eb)) by lia.
    rewrite Z.pow_add_r, Z.mul_assoc, <- Hvb by lia. by destruct (b <? 0); cbn; lia. }
  rewrite Hsa, Hsb. lia.
Qed.

(** ** Facts about the gram pattern *)

Arguments is_digit : simpl never.

Lemma append_String c s t : String c s +:+ t = String c (s +:+ t).
Proof. reflexivity. Qed.

Lemma append_empty t : EmptyString +:+ t = t.
Proof. reflexivity. Qed.

Ltac string_simpl :=
  repeat rewrite ?append_String, ?append_empty in *;
  cbn [match_digits_g all_digits ends_with_digit digit_then_g starts_with_g] in *.

Lemma starts_with_g_spec s :
  starts_with_g s = true <-> exists post, s = String "g" post.
Proof.
  destruct s as [|c s]; cbn.
  - split; [done|]. by intros [? ?].
  - rewrite Ascii.eqb_eq. split; [intros ->; eauto|]. by intros [? [= -> _]].
Qed.

Lemma match_gram_unfold s :
  match_gram s =
  match match_digits_g s with
  | Some ds => Some ds
  | None =>
      match s with
      | EmptyString => None
      | String _ s' => match_gram s'
      end
  end.
Proof. by destruct s. Qed.

(** A run of digits followed by [g] at the head of the string is matched
    there, whole. *)
Lemma match_digits_g_complete ds post :
  ds <> EmptyString -> all_digits ds = true ->
  match_digits_g (ds +:+ String "g" post) = Some ds.
Proof.
  induction ds as [|c ds IH]; [done|]. intros _ [Hc Hds]%andb_true_iff.
  string_simpl. rewrite Hc. destruct ds as [|c' ds].
  - reflexivity.
  - by rewrite IH.
Qed.

Lemma match_digits_g_sound s ds :
  match_digits_g s = Some ds ->
  ds <> EmptyString /\ all_digits ds = true /\
  exists post, s = ds +:+ String "g" post.
Proof.
  revert ds. induction s as [|c s IH]; intros ds; string_simpl; [done|].
  destruct (is_digit c) eqn:Hc; [|done].
  destruct (match_digits_g s) as [ds'|] eqn:Hm.
  - intros [= <-]. destruct (IH ds' eq_refl) as (_ & Hds & post & ->).
    string_simpl. rewrite Hc, Hds. eauto.
  - destruct (starts_with_g s) eqn:Hg; [|done]. intros [= <-].
    apply starts_with_g_spec in Hg as [post ->]. string_simpl. rewrite Hc. eauto.
Qed.

(** No match starts inside a prefix that has no digit followed by [g] and
    does not end in a digit. *)
Lemma match_digits_g_blocked pre rest :
  pre <> EmptyString -> ends_with_digit pre = false ->
  digit_then_g pre = false -> match_digits_g (pre +:+ rest) = None.
Proof.
  induction pre as [|c pre IH]; [done|]. intros _ He Hg.
  string_simpl. destruct (is_digit c) eqn:Hc; [|done].
  destruct pre as [|c' pre]; [congruence|].
  apply orb_false_iff in Hg as [Hs Hg].
  rewrite IH by done. string_simpl. cbn [andb] in Hs. by rewrite Hs.
Qed.

Lemma match_gram_first s ds : first_gram s ds -> match_gram s = Some ds.
Proof.
  intros (pre & post & -> & Hne & Hds & He & Hg).
  induction pre as [|c pre IH].
  - rewrite match_gram_unfold, append_empty. by rewrite match_digits_g_complete.
  - rewrite match_gram_unfold.
    rewrite (match_digits_g_blocked (String c pre)) by done.
    rewrite append_String. apply IH.
    + destruct pre; [done|]. exact He.
    + string_simpl. by apply orb_false_iff in Hg as [_ Hg].
Qed.

Lemma match_gram_sound s ds : match_gram s = Some ds -> first_gram s ds.
Proof.
  induction s as [|c s IH]; rewrite match_gram_unfold.
  - done.
  - destruct (match_digits_g (String c s)) as [ds'|] eqn:Hm.
    + intros [= <-]. apply match_digits_g_sound in Hm as (Hne & Hds & post & Hs).
      by exists EmptyString, post.
    + intros (pre & post & -> & Hne & Hds & He & Hg)%IH.
      exists (String c pre), post. repeat split; try done.
      * destruct pre as [|c' pre]; [|exact He]. string_simpl.
        destruct (is_digit c) eqn:Hc; [|done].
        by rewrite match_digits_g_complete in Hm.
      * string_simpl. rewrite Hg, orb_false_r.
        destruct (is_digit c) eqn:Hc; [|done]. cbn [andb].
        destruct (starts_with_g pre) eqn:Hp; [|done].
        apply starts_with_g_spec in Hp as [pre' ->]. string_simpl.
        by destruct (match_digits_g _).
Qed.



Lemma match_gram_present s : digit_then_g s = true -> match_gram s <> None.
Proof.
  induction s as [|c s IH]; [done|]. string_simpl.
  intros [[Hc Hg]%andb_true_iff | Hs]%orb_true_iff; rewrite match_gram_unfold.
  - apply starts_with_g_spec in Hg as [post ->].
    replace (String c (String "g" post))
      with (String c EmptyString +:+ String "g" post) by reflexivity.
    rewrite match_digits_g_complete; [done|done|]. string_simpl. by rewrite Hc.
  - destruct (match_digits_g (String c s)); [done|]. by apply IH.
Qed.

(** Whenever a digit is followed by [g] there is a first such sequence of
    digits, and only one. *)
Lemma first_gram_exists s : digit_then_g s = true -> exists ds, first_gram s ds.
Proof.
  intros Hs%match_gram_present. destruct (match_gram s) as [ds|] eqn:Hm; [|done].
  exists ds. by apply match_gram_sound.
Qed.

Lemma first_gram_unique s ds ds' : first_gram s ds -> first_gram s ds' -> ds = ds'.
Proof. intros H1%match_gram_first H2%match_gram_first. congruence. Qed.

Lemma first_gram_parseFloat s ds :
  first_gram s ds -> parseFloat ds = of_Z (decimal_value 0 ds).
Proof.
  intros (_ & _ & _ & Hne & Hds & _). unfold parseFloat.
  destruct ds; [done|]. by rewrite Hds.
Qed.

(** ** Facts about aggregation and the meal store *)

Lemma accumulate_zero_swap a b :
  accumulate (accumulate zeroNutrients a) b
  = accumulate (accumulate zeroNutrients b) a.
Proof.
  unfold accumulate, zeroNutrients. cbn [calories protein carbs fat].
  f_equal; apply add_zero_swap.
Qed.

(** Sums of integer-valued nutrients are exact. *)
Lemma total_Permutation zs zs' : zs ≡ₚ zs' -> total zs = total zs'.
Proof. unfold total. induction 1; cbn in *; lia. Qed.

Lemma total_abs_bound zs : Z.abs (total zs) <= total (Z.abs <$> zs).
Proof. unfold total. induction zs as [|z zs IH]; cbn in *; lia. Qed.

Lemma total_abs_nonneg zs : 0 <= total (Z.abs <$> zs).
Proof. unfold total. induction zs as [|z zs IH]; cbn in *; lia. Qed.

Lemma fold_add_integers zs acc :
  Z.abs acc + total (Z.abs <$> zs) < 2 ^ prec ->
  fold_left add (of_Z <$> zs) (of_Z acc) = of_Z (acc + total zs).
Proof.
  revert acc. induction zs as [|z zs IH]; intros acc Hb.
  - cbn. by rewrite Z.add_0_r.
  - pose proof (total_abs_nonneg zs) as Hnn.
    change (total (Z.abs <$> z :: zs)) with (Z.abs z + total (Z.abs <$> zs)) in Hb.
    change (total (z :: zs)) with (z + total zs).
    cbn [fmap list_fmap fold_left].
    rewrite add_of_Z by lia. rewrite IH by lia. f_equal. lia.
Qed.

Lemma get_sumIngredients_acc f l acc :
  get f (fold_left (fun totals ingredient => accumulate totals (nutrients ingredient)) l acc)
  = fold_left add ((fun ing => get f (nutrients ing)) <$> l) (get f acc).
Proof.
  revert acc. induction l as [|ing l IH]; intros acc; [done|].
  cbn [fold_left fmap list_fmap]. rewrite IH. by destruct f.
Qed.

Lemma get_sumIngredients f l :
  get f (sumIngredients l)
  = fold_left add ((fun ing => get f (nutrients ing)) <$> l) zero.
Proof. unfold sumIngredients. rewrite get_sumIngredients_acc. by destruct f. Qed.

Lemma exact_sum f l zs :
  (fun ing => get f (nutrients ing)) <$> l = of_Z <$> zs ->
  total (Z.abs <$> zs) < 2 ^ prec ->
  get f (sumIngredients l) = of_Z (total zs).
Proof.
  intros Hl Hb. rewrite get_sumIngredients, Hl.
  change zero with (of_Z 0). rewrite fold_add_integers by (cbn; lia). done.
Qed.

Lemma exact_sum_Permutation f l l' zs :
  l ≡ₚ l' ->
  (fun ing => get f (nutrients ing)) <$> l = of_Z <$> zs ->
  total (Z.abs <$> zs) < 2 ^ prec ->
  get f (sumIngredients l') = of_Z (total zs).
Proof.
  intros Hp Hl Hb.
  assert (Hp' : of_Z <$> zs ≡ₚ (fun ing => get f (nutrients ing)) <$> l')
    by (rewrite <- Hl; by apply fmap_Permutation).
  symmetry in Hp'. apply Permutation_map_inv in Hp' as (zs' & Hl' & Hzs).
  rewrite (total_Permutation _ _ Hzs) in *.
  apply exact_sum; [done|].
  by rewrite <- (total_Permutation _ _ (fmap_Permutation Z.abs _ _ Hzs)).
Qed.

Lemma filter_indexed_skip {A : Type} (index start : nat) (l : list A) :
  (index < start)%nat ->
  filter_indexed (fun _ i => negb (i =? index)%nat) start l = l.
Proof.
  revert start. induction l as [|x l IH]; intros start Hlt; [done|]. cbn.
  destruct (Nat.eqb_spec start index); [lia|]. cbn. f_equal. apply IH. lia.
Qed.

(** Filtering out one index removes the element at that position and
    keeps the others in their order. *)
Lemma filter_indexed_delete {A : Type} (k start : nat) (l : list A) :
  filter_indexed (fun _ i => negb (i =? start + k)%nat) start l
  = take k l ++ drop (S k) l.
Proof.
  revert k start. induction l as [|x l IH]; intros k start.
  - by destruct k.
  - cbn [filter_indexed]. destruct k as [|k].
    + rewrite Nat.add_0_r, Nat.eqb_refl. cbn.
      rewrite drop_0. apply filter_indexed_skip. lia.
    + destruct (Nat.eqb_spec start (start + S k)); [lia|]. cbn.
      f_equal. replace (start + S k)%nat with (S start + k)%nat by lia.
      apply IH.
Qed.

Lemma removeMeal_loggedMeals index st :
  loggedMeals (removeMeal index st)
  = take index (loggedMeals st) ++ drop (S index) (loggedMeals st).
Proof. apply (filter_indexed_delete index 0). Qed.

(** The two assignments of a rescale or reset, to the ingredient and then
    to the total of its meal, replace one meal of the list. *)
Lemma recalculate_after_store mi ii ing' meals meal :
  meals !! mi = Some meal ->
  recalculateMealTotals mi (store_ingredient mi ii ing' meals)
  = Normal (<[mi := updated_meal ii ing' meal]> meals).
Proof.
  intros Hm. unfold store_ingredient, recalculateMealTotals, property_of.
  rewrite Hm, list_lookup_insert_eq by eauto using lookup_lt_Some.
  cbn. by rewrite list_insert_insert_eq.
Qed.

(** [recalculateIngredientNutrition] by cases: an index out of range
    throws, a failed guard changes nothing, and otherwise one meal is
    replaced and the daily totals are recomputed. *)
Lemma recalculateIngredientNutrition_cases mi ii w st :
  recalculateIngredientNutrition mi ii w (loggedMeals st) st =
  match loggedMeals st !! mi with
  | None => Throw "TypeError: Cannot read properties of undefined"
  | Some meal =>
      match ingredients meal !! ii with
      | None => Throw "TypeError: Cannot read properties of undefined"
      | Some ing =>
          match rescale ing w with
          | Some ing' => Normal (updated_state mi ii ing' meal st)
          | None => Normal st
          end
      end
  end.
Proof.
  unfold recalculateIngredientNutrition, property_of.
  destruct (loggedMeals st !! mi) as [meal|] eqn:Hm; [|done]. cbn.
  destruct (ingredients meal !! ii) as [ing|]; [|done]. cbn.
  destruct (rescale ing w) as [ing'|]; [|done].
  by rewrite (recalculate_after_store _ _ _ _ _ Hm).
Qed.

Lemma resetToOriginalNutrition_cases mi ii st :
  resetToOriginalNutrition mi ii st =
  match loggedMeals st !! mi with
  | None => Throw "TypeError: Cannot read properties of undefined"
  | Some meal =>
      match ingredients meal !! ii with
      | None => Throw "TypeError: Cannot read properties of undefined"
      | Some ing =>
          match reset ing with
          | Some ing' => Normal (updated_state mi ii ing' meal st)
          | None => Normal st
          end
      end
  end.
Proof.
  unfold resetToOriginalNutrition, property_of.
  destruct (loggedMeals st !! mi) as [meal|] eqn:Hm; [|done]. cbn.
  destruct (ingredients meal !! ii) as [ing|]; [|done]. cbn.
  destruct (reset ing) as [ing'|]; [|done].
  by rewrite (recalculate_after_store _ _ _ _ _ Hm).
Qed.

(** What a rescale or reset event does to the state: nothing, or the
    replacement of the addressed ingredient by its adjusted version. *)
Lemma adjustment_outcome st ev :
  is_adjustment ev ->
  handle st ev = st \/
  exists mi ii meal ing ing',
    loggedMeals st !! mi = Some meal /\ ingredients meal !! ii = Some ing /\
    handle st ev = updated_state mi ii ing' meal st.
Proof.
  destruct ev as [| | |mi ii k w|mi ii w|mi ii]; try done; intros _; cbn [handle].
  - unfold selectMeasurement. rewrite recalculateIngredientNutrition_cases.
    destruct (loggedMeals st !! mi) as [meal|] eqn:Hm; [|by left].
    destruct (ingredients meal !! ii) as [ing|] eqn:Hi; [|by left].
    destruct (rescale ing w) as [ing'|]; [|by left].
    right. by exists mi, ii, meal, ing, ing'.
  - unfold handleCustomGramInput.
    destruct (w > zero)%js;
      [rewrite recalculateIngredientNutrition_cases
      |rewrite resetToOriginalNutrition_cases];
      (destruct (loggedMeals st !! mi) as [meal|] eqn:Hm; [|by left]);
      (destruct (ingredients meal !! ii) as [ing|] eqn:Hi; [|by left]).
    + destruct (rescale ing w) as [ing'|]; [|by left].
      right. by exists mi, ii, meal, ing, ing'.
    + destruct (reset ing) as [ing'|]; [|by left].
      right. by exists mi, ii, meal, ing, ing'.
  - rewrite resetToOriginalNutrition_cases.
    destruct (loggedMeals st !! mi) as [meal|] eqn:Hm; [|by left].
    destruct (ingredients meal !! ii) as [ing|] eqn:Hi; [|by left].
    destruct (reset ing) as [ing'|]; [|by left].
    right. by exists mi, ii, meal, ing, ing'.
Qed.

(** What a request does to the meal list: nothing, or the delivered meals
    are appended. *)
Lemma logFood_loggedMeals outcome st :
  loggedMeals (logFood outcome st) = loggedMeals st \/
  loggedMeals (logFood outcome st)
  = loggedMeals st ++ delivered (LogFood outcome).
Proof.
  unfold logFood. destruct (trim (foodInput st)); [by left|].
  destruct outcome as [msg|[] [msg|data]]; cbn; try by left.
  - destruct (api_dailyTotals data), (api_loggedMeals data); cbn; auto.
  - destruct (api_error data) as [[|]|]; by left.
Qed.


(** ** Rescaling one ingredient *)

Lemma rescale_Some ing w :
  (resolveReferenceGramWeight ing > zero)%js = true ->
  (w > zero)%js = true ->
  rescale ing w
  = Some (set_nutrients
            (scaleNutrients (pristine_nutrients ing)
               (w / resolveReferenceGramWeight ing)%js)
            (set_originalNutrients (pristine_nutrients ing) ing)).
Proof. intros Hr Hw. unfold rescale. by rewrite Hr, Hw. Qed.

Lemma rescale_inv ing w ing' :
  rescale ing w = Some ing' ->
  (resolveReferenceGramWeight ing > zero)%js = true /\
  (w > zero)%js = true /\
  ing' = set_nutrients
           (scaleNutrients (pristine_nutrients ing)
              (w / resolveReferenceGramWeight ing)%js)
           (set_originalNutrients (pristine_nutrients ing) ing).
Proof.
  unfold rescale.
  destruct (resolveReferenceGramWeight ing > zero)%js; [|done].
  destruct (w > zero)%js; [|done]. by intros [= <-].
Qed.


(** The snapshot, once taken, stays: from an ingredient that was never
    rescaled, every sequence of rescales and resets leads to an ingredient
    whose pristine nutrients are still those it started with. *)
Lemma adjust_pristine ing a :
  pristine_nutrients (adjust ing a) = pristine_nutrients ing.
Proof.
  destruct a as [w|]; cbn [adjust].
  - destruct (rescale ing w) as [ing'|] eqn:Hr; [|done].
    by apply rescale_inv in Hr as (_ & _ & ->).
  - unfold reset, pristine_nutrients.
    by destruct (originalNutrients ing) eqn:Ho; cbn; rewrite ?Ho.
Qed.

Lemma adjust_all_pristine ing l :
  pristine_nutrients (adjust_all ing l) = pristine_nutrients ing.
Proof.
  revert ing. induction l as [|a l IH]; intros ing; [done|].
  change (adjust_all ing (a :: l)) with (adjust_all (adjust ing a) l).
  by rewrite IH, adjust_pristine.
Qed.

Lemma ingredient_at_updated st mi ii meal ing ing' :
  loggedMeals st !! mi = Some meal -> ingredients meal !! ii = Some ing ->
  ingredient_at (updated_state mi ii ing' meal st) mi ii = Some ing'.
Proof.
  intros Hm Hi. unfold ingredient_at, updated_state. cbn.
  rewrite list_lookup_insert_eq by eauto using lookup_lt_Some. cbn.
  apply list_lookup_insert_eq. eauto using lookup_lt_Some.
Qed.

Lemma ingredient_at_inv st mi ii ing :
  ingredient_at st mi ii = Some ing ->
  exists meal, loggedMeals st !! mi = Some meal /\ ingredients meal !! ii = Some ing.
Proof.
  unfold ingredient_at. destruct (loggedMeals st !! mi) as [meal|]; [|done].
  cbn. eauto.
Qed.

(** ** The claims *)

(** C1. For an ingredient whose resolved reference gram weight [R] is
    positive and a requested gram weight [w > 0], the rescale completes and
    leaves the ingredient with nutrients computed from its original
    nutrients (the snapshot if there is one, which the current nutrients do
    not influence; otherwise the current nutrients, which become the
    snapshot) times [w / R]: calories go through [Math.round], and protein,
    carbs and fat are multiplied by 10, rounded and divided by 10.
    [Math.round] gives the integer nearest to a finite argument.  Original
    nutrients 200, 10, 20, 5 at reference 100 rescaled to 150 give 300, 15,
    30 and 7.5. *)
Theorem rescale_from_original :
  (forall (st : State) (mi ii : nat) (w : number) (meal : Meal) (ing : Ingredient),
     loggedMeals st !! mi = Some meal ->
     ingredients meal !! ii = Some ing ->
     (resolveReferenceGramWeight ing > zero)%js = true ->
     (w > zero)%js = true ->
     let original := pristine_nutrients ing in
     let multiplier := (w / resolveReferenceGramWeight ing)%js in
     exists (st' : State) (ing' : Ingredient),
       recalculateIngredientNutrition mi ii w (loggedMeals st) st = Normal st' /\
       ingredient_at st' mi ii = Some ing' /\
       originalNutrients ing' = Some original /\
       calories (nutrients ing')
         = Math_round (calories original * multiplier)%js /\
       protein (nutrients ing')
         = (Math_round (protein original * multiplier * of_Z 10) / of_Z 10)%js /\
       carbs (nutrients ing')
         = (Math_round (carbs original * multiplier * of_Z 10) / of_Z 10)%js /\
       fat (nutrients ing')
         = (Math_round (fat original * multiplier * of_Z 10) / of_Z 10)%js) /\
  (forall x : number,
     is_finite x = true ->
     exists n : Z, to_integer (Math_round x) = Some n /\ nearest_integer x n) /\
  (forall ing : Ingredient,
     originalNutrients ing
       = Some (nutrients_of (of_Z 200) (of_Z 10) (of_Z 20) (of_Z 5)) ->
     resolveReferenceGramWeight ing = of_Z 100 ->
     exists ing' : Ingredient,
       rescale ing (of_Z 150) = Some ing' /\
       nutrients ing'
       = nutrients_of (of_Z 300) (of_Z 15) (of_Z 30) (decimal 75 1)).
Proof.
  split; [|split].
  - intros st mi ii w meal ing Hm Hi Hr Hw original multiplier.
    exists (updated_state mi ii
              (set_nutrients (scaleNutrients original multiplier)
                 (set_originalNutrients original ing)) meal st).
    eexists. split; [|split; [by eapply ingredient_at_updated|done]].
    rewrite recalculateIngredientNutrition_cases, Hm, Hi.
    by rewrite (rescale_Some _ _ Hr Hw).
  - apply Math_round_nearest.
  - intros ing Ho Hr. eexists. split.
    + apply rescale_Some; [by rewrite Hr | done].
    + unfold pristine_nutrients. rewrite Ho, Hr. by vm_compute.
Qed.

(** Breakfast holds 200, 10, 20 and 5 per 100 g; rescaled to 150 g. *)
Lemma rescale_from_original_witness :
  exists st' : State,
    recalculateIngredientNutrition 0 0 (of_Z 150)
      (loggedMeals (state_of [breakfast])) (state_of [breakfast]) = Normal st' /\
    (nutrients <$> ingredient_at st' 0 0)
    = Some (nutrients_of (of_Z 300) (of_Z 15) (of_Z 30) (decimal 75 1)).
Proof.
  destruct (proj1 rescale_from_original (state_of [breakfast]) 0%nat 0%nat
              (of_Z 150) breakfast
              (ingredient_of "100g"
                 (nutrients_of (of_Z 200) (of_Z 10) (of_Z 20) (of_Z 5)))
              eq_refl eq_refl eq_refl eq_refl)
    as (st' & ing' & Hst & Hat & _ & Hc & Hp & Hb & Hf).
  exists st'. split; [exact Hst|]. rewrite Hat. cbn [fmap option_fmap option_map].
  f_equal. destruct ing' as [? ? ? [c p b f] ? ? ? ?]. cbn in Hc, Hp, Hb, Hf.
  by rewrite Hc, Hp, Hb, Hf.
Defined.





(** C4. When the requested gram weight is zero or negative, or the
    resolved reference gram weight is zero, a rescale of an existing
    ingredient assigns nothing and throws nothing: the handler completes
    normally with the very state it started from, so the ingredient's
    [nutrients] and [originalNutrients], the meal totals, the daily totals
    and the error message are all unchanged. *)
Theorem rescale_guard_noop (st : State) (mi ii k : nat) (w : number)
    (ing : Ingredient) :
  ingredient_at st mi ii = Some ing ->
  (w <= zero)%js = true \/ (resolveReferenceGramWeight ing === zero)%js = true ->
  rescale ing w = None /\
  recalculateIngredientNutrition mi ii w (loggedMeals st) st = Normal st /\
  selectMeasurement mi ii k w st = Normal st /\
  handle st (SelectMeasurement mi ii k w) = st.
Proof.
  intros Hat Hguard.
  assert (Hr : rescale ing w = None).
  { unfold rescale. destruct Hguard as [Hw|Hz].
    - by rewrite (le_zero_not_gt _ Hw), andb_false_r.
    - by rewrite (eq_zero_not_gt _ Hz). }
  assert (Hn : recalculateIngredientNutrition mi ii w (loggedMeals st) st
               = Normal st).
  { rewrite recalculateIngredientNutrition_cases. unfold ingredient_at in Hat.
    destruct (loggedMeals st !! mi) as [meal|]; [|done]. cbn in Hat.
    by rewrite Hat, Hr. }
  repeat split; try done. cbn [handle]. unfold selectMeasurement. by rewrite Hn.
Qed.

(** A measurement of zero grams selected for the first ingredient of lunch. *)
Lemma rescale_guard_noop_witness :
  handle (state_of [breakfast; lunch]) (SelectMeasurement 1 0 0 zero)
  = state_of [breakfast; lunch].
Proof.
  refine (proj2 (proj2 (proj2
    (rescale_guard_noop (state_of [breakfast; lunch]) 1 0 0 zero
       (ingredient_of "250g"
          (nutrients_of (of_Z 640) (of_Z 31) (of_Z 70) (of_Z 22))) _ _)))).
  - reflexivity.
  - left. reflexivity.
Defined.

(** C5 does not hold as stated: a meal that the service delivers with a
    total that is not the sum of its ingredients is stored as delivered. *)
Lemma meal_totals_counterexample :
  ~ (forall st : State,
       reachable any_event st -> Forall consistent_meal (loggedMeals st)).
Proof.
  intros H.
  specialize (H (handle (handle initialState (TypeFood "a snack"))
                   (LogFood (FetchResponse true (inr mislabelled_response))))).
  assert (Hc : consistent_meal mislabelled).
  { eapply Forall_lookup_1 with (i := 0%nat); [apply H|reflexivity].
    repeat (apply reachable_handle; [|exact I]). apply reachable_initial. }
  vm_compute in Hc. discriminate Hc.
Qed.

(** C5, amended.  [logFood] and [removeMeal] store and keep meals with the
    totals they arrived with; a rescale or reset that changes the state
    recomputes the total of the meal it touches and leaves the other meals
    alone.  So every meal of every reachable state has a total equal to
    the sum of its ingredients' nutrients, provided the meals delivered by
    the service did. *)
Theorem meal_totals_consistent :
  (forall st : State,
     reachable consistent_delivery st ->
     Forall consistent_meal (loggedMeals st)) /\
  (forall (st : State) (ev : event),
     is_adjustment ev ->
     handle st ev = st \/
     exists (mi : nat) (meal' : Meal),
       loggedMeals (handle st ev) !! mi = Some meal' /\
       consistent_meal meal' /\
       forall j : nat,
         j <> mi -> loggedMeals (handle st ev) !! j = loggedMeals st !! j).
Proof.
  split.
  - induction 1 as [|st ev Hst IH Hev]; [by constructor|].
    destruct ev as [text|outcome|index|mi ii k w|mi ii w|mi ii];
      try (match goal with
           | |- context [handle st ?e] =>
               destruct (adjustment_outcome st e I)
                 as [-> | (? & ? & ? & ? & ? & _ & _ & ->)];
               [done | by apply Forall_insert]
           end).
    + done.
    + cbn [handle]. destruct (logFood_loggedMeals outcome st) as [-> | ->]; [done|].
      by apply Forall_app.
    + cbn [handle]. rewrite removeMeal_loggedMeals.
      apply Forall_app. split; [by apply Forall_take | by apply Forall_drop].
  - intros st ev Hev.
    destruct (adjustment_outcome st ev Hev)
      as [-> | (mi & ii & meal & ing & ing' & Hm & _ & ->)]; [by left|].
    right. exists mi, (updated_meal ii ing' meal). split; [|split].
    + apply list_lookup_insert_eq. eauto using lookup_lt_Some.
    + reflexivity.
    + intros j Hj. by apply list_lookup_insert_ne.
Qed.

(** The state after typing a text and receiving [lunch]. *)
Lemma meal_totals_consistent_witness :
  Forall consistent_meal
    (loggedMeals
       (handle (handle initialState (TypeFood "pasta and a cup of soup"))
          (LogFood (FetchResponse true (inr (lunch_response zeroNutrients)))))).
Proof.
  apply (proj1 meal_totals_consistent).
  apply reachable_handle.
  - apply reachable_handle; [apply reachable_initial | by constructor].
  - repeat constructor.
Defined.



(** C7. A response that lacks [dailyTotals] or lacks [loggedMeals] raises
    the invalid-response error, and the meal list and the daily totals stay
    as they were: nothing is appended. *)
Theorem invalid_response_rejected (st : State) (err : option string)
    (totals : option Nutrients) (batch : option (list Meal)) :
  trim (foodInput st) <> EmptyString ->
  totals = None \/ batch = None ->
  let st' :=
    logFood (FetchResponse true
               (inr {| api_error := err; api_dailyTotals := totals;
                       api_loggedMeals := batch |})) st in
  error st' = "Invalid response format from AI. Please try again." /\
  loggedMeals st' = loggedMeals st /\
  dailyTotals st' = dailyTotals st /\
  foodInput st' = foodInput st.
Proof.
  intros Htext Hmissing. unfold logFood.
  destruct (trim (foodInput st)); [done|].
  destruct Hmissing as [-> | ->]; [done|]. by destruct totals.
Qed.

(** A response without [dailyTotals], received with breakfast logged. *)
Lemma invalid_response_rejected_witness :
  error (logFood (FetchResponse true (inr response_without_totals))
           (state_of [breakfast]))
  = "Invalid response format from AI. Please try again." /\
  loggedMeals (logFood (FetchResponse true (inr response_without_totals))
                 (state_of [breakfast]))
  = [breakfast].
Proof.
  pose proof (invalid_response_rejected (state_of [breakfast]) None None
                (Some [lunch])) as H.
  destruct H as (He & Hm & _); [by vm_compute | by left |].
  split; [exact He | exact Hm].
Defined.



(** C9 does not hold as stated: the sums are accumulated in binary64, and
    0.1 + 0.2 + 0.3 differs from 0.3 + 0.2 + 0.1 in the last bit. *)
Lemma sumIngredients_order_counterexample :
  ~ (forall l l' : list Ingredient,
       l ≡ₚ l' -> sumIngredients l = sumIngredients l').
Proof.
  intros H. specialize (H tenths (reverse tenths) (symmetry (reverse_Permutation _))).
  vm_compute in H. discriminate H.
Qed.

(** C9, amended.  [sumIngredients] gives the all-zero vector for the empty
    list, and accumulates from zero in list order.  Exchanging the first two
    ingredients does not change the sum, so the sum of a list of at most
    two ingredients does not depend on their order.  For a nutrient whose
    values over the list are integers with absolute values adding up to
    less than [2^53], the sum is exact, hence the same for every
    permutation of the list. *)
Theorem sumIngredients_order :
  sumIngredients [] = zeroNutrients /\
  (forall (a b : Ingredient) (l : list Ingredient),
     sumIngredients (a :: b :: l) = sumIngredients (b :: a :: l)) /\
  (forall l l' : list Ingredient,
     l ≡ₚ l' -> (length l <= 2)%nat -> sumIngredients l = sumIngredients l') /\
  (forall (f : field) (l l' : list Ingredient) (zs : list Z),
     l ≡ₚ l' ->
     (fun ing => get f (nutrients ing)) <$> l = of_Z <$> zs ->
     total (Z.abs <$> zs) < 2 ^ 53 ->
     get f (sumIngredients l) = of_Z (total zs) /\
     get f (sumIngredients l') = of_Z (total zs)).
Proof.
  assert (Hswap : forall a b l,
            sumIngredients (a :: b :: l) = sumIngredients (b :: a :: l)).
  { intros a b l. unfold sumIngredients. cbn [fold_left].
    by rewrite accumulate_zero_swap. }
  split; [done|]. split; [exact Hswap|]. split.
  - intros l l' Hp Hlen. destruct l as [|a [|b [|c l]]]; cbn in Hlen.
    + by apply Permutation_nil in Hp as ->.
    + by apply Permutation_singleton_l in Hp as ->.
    + apply Permutation_length_2_inv in Hp as [-> | ->]; [done|apply Hswap].
    + lia.
  - intros f l l' zs Hp Hl Hb. split.
    + by apply exact_sum.
    + by eapply exact_sum_Permutation.
Qed.

(** The first two of [tenths], in both orders. *)
Lemma sumIngredients_order_witness :
  sumIngredients (take 2 tenths) = sumIngredients (reverse (take 2 tenths)).
Proof.
  apply (proj2 (proj2 sumIngredients_order)).
  - symmetry. apply reverse_Permutation.
  - cbn. lia.
Defined.

(** C10 does not hold as stated: when the scaled energy overflows, the
    calories after a rescale that passed the guard are [Infinity], which is
    not an integer. *)
Lemma rescale_quantizes_counterexample :
  ~ (forall (ing : Ingredient) (w : number) (ing' : Ingredient),
       rescale ing w = Some ing' ->
       isInteger (calories (nutrients ing')) = true).
Proof.
  intros H.
  specialize (H enormous (of_Z 10) _ (rescale_Some enormous (of_Z 10) eq_refl eq_refl)).
  vm_compute in H. discriminate H.
Qed.

(** C10, amended.  After a rescale that passed the guard, the calories
    are an integer whenever the scaled energy is finite, and each of
    protein, carbs and fat is an integer Number divided by 10 (the Number
    nearest to a multiple of one tenth) whenever ten times its scaled value
    is finite.  So rescaling to the reference weight itself, where the
    multiplier is exactly 1, is not the identity: it changes the nutrients
    of an ingredient whose values are not on that grid. *)
Theorem rescale_quantizes :
  (forall (ing : Ingredient) (w : number) (ing' : Ingredient),
     rescale ing w = Some ing' ->
     let original := pristine_nutrients ing in
     let multiplier := (w / resolveReferenceGramWeight ing)%js in
     (is_finite (calories original * multiplier)%js = true ->
      isInteger (calories (nutrients ing')) = true) /\
     (is_finite (protein original * multiplier * of_Z 10)%js = true ->
      exists q : number,
        isInteger q = true /\ protein (nutrients ing') = (q / of_Z 10)%js) /\
     (is_finite (carbs original * multiplier * of_Z 10)%js = true ->
      exists q : number,
        isInteger q = true /\ carbs (nutrients ing') = (q / of_Z 10)%js) /\
     (is_finite (fat original * multiplier * of_Z 10)%js = true ->
      exists q : number,
        isInteger q = true /\ fat (nutrients ing') = (q / of_Z 10)%js)) /\
  (exists (ing : Ingredient) (w : number) (ing' : Ingredient),
     isInteger (calories (nutrients ing)) = false /\
     w = resolveReferenceGramWeight ing /\
     (w / resolveReferenceGramWeight ing)%js = of_Z 1 /\
     rescale ing w = Some ing' /\
     nutrients ing' <> nutrients ing).
Proof.
  split.
  - intros ing w ing' Hr original multiplier.
    apply rescale_inv in Hr as (_ & _ & ->). cbn.
    repeat split; intros Hfin;
      solve [ by apply Math_round_isInteger
            | eexists; split; [by apply Math_round_isInteger | reflexivity] ].
  - exists fine_grained, (of_Z 100). eexists.
    split; [reflexivity|]. split; [reflexivity|]. split; [reflexivity|].
    split; [exact (rescale_Some fine_grained (of_Z 100) eq_refl eq_refl)|].
    vm_compute. discriminate.
Qed.

(** [fine_grained] rescaled to 250 g. *)
Lemma rescale_quantizes_witness :
  exists ing' : Ingredient,
    rescale fine_grained (of_Z 250) = Some ing' /\
    isInteger (calories (nutrients ing')) = true.
Proof.
  eexists. split.
  - exact (rescale_Some fine_grained (of_Z 250) eq_refl eq_refl).
  - refine (proj1 (proj1 rescale_quantizes fine_grained (of_Z 250) _
                     (rescale_Some fine_grained (of_Z 250) eq_refl eq_refl)) _).
    reflexivity.
Defined.

(** ** Further properties of the handlers *)

Lemma trimEnd_empty s : trimEnd s = EmptyString -> all_whitespace s = true.
Proof.
  induction s as [|c s IH]; [done|]. cbn.
  destruct (trimEnd s); [|done].
  destruct (is_whitespace c); [|done]. intros _. by apply IH.
Qed.

Lemma trimStart_all_whitespace s :
  all_whitespace (trimStart s) = all_whitespace s.
Proof.
  induction s as [|c s IH]; [done|]. cbn.
  destruct (is_whitespace c) eqn:Hc; [done|]. cbn. by rewrite Hc.
Qed.

Lemma trimStart_blank s : all_whitespace s = true -> trimStart s = EmptyString.
Proof.
  induction s as [|c s IH]; [done|]. cbn.
  intros [Hc Hs]%andb_true_iff. rewrite Hc. by apply IH.
Qed.

(** [trim] gives the empty string exactly on the strings made of
    whitespace only. *)
Lemma trim_empty_iff s : trim s = EmptyString <-> all_whitespace s = true.
Proof.
  unfold trim. split.
  - intros H%trimEnd_empty. by rewrite trimStart_all_whitespace in H.
  - intros H. by rewrite trimStart_blank.
Qed.

Lemma logFood_blank st outcome :
  all_whitespace (foodInput st) = true ->
  logFood outcome st = setError "Please enter what you ate" st.
Proof. intros Hb%trim_empty_iff. unfold logFood. by rewrite Hb. Qed.

(** X1. When the input consists of whitespace only (or is empty),
    [logFood] sets the error message "Please enter what you ate" and does
    nothing else: meals, daily totals, input text, loading flag and progress
    stay as they are, whatever the service would have answered. *)
Theorem logFood_blank_input (st : State) :
  all_whitespace (foodInput st) = true ->
  forall outcome : FetchOutcome,
    logFood outcome st = setError "Please enter what you ate" st.
Proof.
  intros Hb outcome. by apply logFood_blank.
Qed.

(** A submission of three spaces while lunch would have been delivered. *)
Lemma logFood_blank_input_witness :
  logFood (FetchResponse true (inr (lunch_response zeroNutrients)))
    (setFoodInput "   " (state_of [breakfast]))
  = setError "Please enter what you ate"
      (setFoodInput "   " (state_of [breakfast])).
Proof.
  apply (logFood_blank_input (setFoodInput "   " (state_of [breakfast]))).
  reflexivity.
Defined.

Lemma logFood_nonblank st :
  all_whitespace (foodInput st) = false ->
  exists c s, trim (foodInput st) = String c s.
Proof.
  intros Hb. destruct (trim (foodInput st)) as [|c s] eqn:Ht; [|eauto].
  apply trim_empty_iff in Ht. congruence.
Qed.

(** X2. Whenever the input is not blank, [logFood] ends with the loading
    flag cleared and the progress back at 0, for every outcome of the
    request; and for every input and outcome the meals logged before are
    still there, in their order, at the front of the list. *)
Theorem logFood_settles (st : State) (outcome : FetchOutcome) :
  (all_whitespace (foodInput st) = false ->
   loading (logFood outcome st) = false /\ progress (logFood outcome st) = 0) /\
  (exists batch : list Meal,
     loggedMeals (logFood outcome st) = loggedMeals st ++ batch).
Proof.
  split.
  - intros (c & s & Ht)%logFood_nonblank. unfold logFood. by rewrite Ht.
  - destruct (logFood_loggedMeals outcome st) as [-> | ->]; [|eauto].
    exists []. by rewrite app_nil_r.
Qed.

(** A rejected fetch while breakfast is logged. *)
Lemma logFood_settles_witness :
  loading (logFood (FetchRejected "Failed to fetch") (state_of [breakfast])) = false /\
  progress (logFood (FetchRejected "Failed to fetch") (state_of [breakfast])) = 0.
Proof.
  apply (logFood_settles (state_of [breakfast]) (FetchRejected "Failed to fetch")).
  reflexivity.
Defined.

Lemma logFood_failed st outcome c s :
  trim (foodInput st) = String c s -> failed outcome ->
  logFood outcome st
  = setProgress 0 (setLoading false (setError (failure_message outcome)
      (setProgress 5 (setLoading true (setError "" st))))).
Proof.
  intros Ht Hf. unfold logFood. rewrite Ht.
  destruct outcome as [msg|[] [msg|data]]; cbn in *; try done.
  - by destruct Hf as [-> | ->]; [|destruct (api_dailyTotals data)].
  - destruct (api_error data) as [[|c' e]|]; try done.
Qed.

(** X3. A request that fails (a rejected fetch, a body that does not
    parse, a response with a failure status, or an ok response that lacks
    a field) reports the message thrown: the one of the rejection or parse
    error, the [error] field of a failure body when it is a non-empty
    string and "Failed to process food data" otherwise.  The meals, the
    daily totals and the typed text are kept; in particular the meals in
    the body of a response with a failure status are never appended. *)
Theorem logFood_failure_reported (st : State) (outcome : FetchOutcome) :
  all_whitespace (foodInput st) = false ->
  failed outcome ->
  error (logFood outcome st) = failure_message outcome /\
  loggedMeals (logFood outcome st) = loggedMeals st /\
  dailyTotals (logFood outcome st) = dailyTotals st /\
  foodInput (logFood outcome st) = foodInput st.
Proof.
  intros (c & s & Ht)%logFood_nonblank Hf.
  by rewrite (logFood_failed _ _ _ _ Ht Hf).
Qed.

(** A failure status with a body that carries meals. *)
Lemma logFood_failure_reported_witness :
  error (logFood (FetchResponse false (inr refused_with_meals))
           (state_of [breakfast])) = "quota exceeded" /\
  loggedMeals (logFood (FetchResponse false (inr refused_with_meals))
                 (state_of [breakfast])) = [breakfast].
Proof.
  destruct (logFood_failure_reported (state_of [breakfast])
              (FetchResponse false (inr refused_with_meals)) eq_refl I)
    as (He & Hm & _).
  split; [exact He | exact Hm].
Defined.

(** X4. A failed request leaves no trace on later ones: submitting again
    after a failure gives exactly the state that the second submission
    alone would have given. *)
Theorem logFood_retry_after_failure (st : State) (first second : FetchOutcome) :
  all_whitespace (foodInput st) = false ->
  failed first ->
  logFood second (logFood first st) = logFood second st.
Proof.
  intros (c & s & Ht)%logFood_nonblank Hf.
  rewrite (logFood_failed _ _ _ _ Ht Hf).
  unfold logFood. cbn [foodInput setProgress setLoading setError]. rewrite Ht.
  cbn [loggedMeals setProgress setLoading setError].
  by destruct (receive second (loggedMeals st)).
Qed.

(** A rejected fetch followed by a successful request. *)
Lemma logFood_retry_after_failure_witness :
  logFood (FetchResponse true (inr (lunch_response zeroNutrients)))
    (logFood (FetchRejected "Failed to fetch") (state_of [breakfast]))
  = logFood (FetchResponse true (inr (lunch_response zeroNutrients)))
      (state_of [breakfast]).
Proof.
  apply (logFood_retry_after_failure (state_of [breakfast])); [reflexivity|exact I].
Defined.

(** X5. A successful request clears the typed text and the error
    message, so submitting again without typing is refused as blank input:
    the second submission only sets the error message, and no meal is
    logged twice. *)
Theorem logFood_resubmit_refused (st : State) (first second : FetchOutcome) :
  all_whitespace (foodInput st) = false ->
  ~ failed first ->
  foodInput (logFood first st) = EmptyString /\
  error (logFood first st) = EmptyString /\
  logFood second (logFood first st)
  = setError "Please enter what you ate" (logFood first st).
Proof.
  intros (c & s & Ht)%logFood_nonblank Hok.
  assert (Hin : foodInput (logFood first st) = EmptyString
                /\ error (logFood first st) = EmptyString).
  { unfold logFood. rewrite Ht.
    destruct first as [msg|[] [msg|data]]; cbn in Hok; try (by destruct Hok).
    cbn. destruct (api_dailyTotals data), (api_loggedMeals data); try done;
      exfalso; apply Hok; auto. }
  destruct Hin as [Hin Herr]. split; [done|]. split; [done|].
  apply logFood_blank. by rewrite Hin.
Qed.

(** Lunch delivered, then the button pressed again. *)
Lemma logFood_resubmit_refused_witness :
  loggedMeals
    (logFood (FetchResponse true (inr (lunch_response zeroNutrients)))
       (logFood (FetchResponse true (inr (lunch_response zeroNutrients)))
          (state_of [breakfast])))
  = [breakfast; lunch].
Proof.
  destruct (logFood_resubmit_refused (state_of [breakfast])
              (FetchResponse true (inr (lunch_response zeroNutrients)))
              (FetchResponse true (inr (lunch_response zeroNutrients)))
              eq_refl) as (_ & _ & ->).
  - cbn. intros [H|H]; discriminate H.
  - reflexivity.
Defined.

(** X6. [removeMeal] with an index beyond the end of the list removes
    nothing: the meal list is unchanged, and in a state whose daily totals
    are the sum of its meals (every reachable state) the whole state is
    unchanged. *)
Theorem removeMeal_out_of_range (st : State) (index : nat) :
  (length (loggedMeals st) <= index)%nat ->
  loggedMeals (removeMeal index st) = loggedMeals st /\
  (dailyTotals st = sumMeals (loggedMeals st) -> removeMeal index st = st).
Proof.
  intros Hi.
  assert (Hl : loggedMeals (removeMeal index st) = loggedMeals st).
  { rewrite removeMeal_loggedMeals, take_ge, drop_ge by lia. apply app_nil_r. }
  split; [done|]. intros Hd.
  assert (Hf : filter_indexed (fun _ i => negb (i =? index)%nat) 0%nat
                 (loggedMeals st) = loggedMeals st) by exact Hl.
  unfold removeMeal, recalculateDailyTotals, setDailyTotals, setLoggedMeals.
  cbn. rewrite Hf, <- Hd. by destruct st.
Qed.

(** Index 3 of a list of three meals. *)
Lemma removeMeal_out_of_range_witness :
  removeMeal 3 (state_of [breakfast; lunch; dinner])
  = state_of [breakfast; lunch; dinner].
Proof.
  apply (removeMeal_out_of_range (state_of [breakfast; lunch; dinner]) 3).
  - cbn. lia.
  - reflexivity.
Defined.

(** X7. When the indices address no ingredient (the meal index or the
    ingredient index is out of range), a rescale and a reset both throw a
    TypeError before anything is assigned, and the event leaves the state
    as it was. *)
Theorem adjustment_out_of_range (st : State) (mi ii k : nat) (w : number) :
  ingredient_at st mi ii = None ->
  recalculateIngredientNutrition mi ii w (loggedMeals st) st
    = Throw "TypeError: Cannot read properties of undefined" /\
  resetToOriginalNutrition mi ii st
    = Throw "TypeError: Cannot read properties of undefined" /\
  handle st (SelectMeasurement mi ii k w) = st /\
  handle st (CustomGramInput mi ii w) = st /\
  handle st (ResetNutrition mi ii) = st.
Proof.
  intros Hat.
  assert (H1 : recalculateIngredientNutrition mi ii w (loggedMeals st) st
               = Throw "TypeError: Cannot read properties of undefined").
  { rewrite recalculateIngredientNutrition_cases. unfold ingredient_at in Hat.
    destruct (loggedMeals st !! mi) as [meal|]; [|done]. cbn in Hat.
    by rewrite Hat. }
  assert (H2 : resetToOriginalNutrition mi ii st
               = Throw "TypeError: Cannot read properties of undefined").
  { rewrite resetToOriginalNutrition_cases. unfold ingredient_at in Hat.
    destruct (loggedMeals st !! mi) as [meal|]; [|done]. cbn in Hat.
    by rewrite Hat. }
  repeat split; try done; cbn [handle].
  - unfold selectMeasurement. by rewrite H1.
  - unfold handleCustomGramInput. destruct (w > zero)%js; by rewrite ?H1, ?H2.
  - by rewrite H2.
Qed.

(** The second ingredient of breakfast, which has one. *)
Lemma adjustment_out_of_range_witness :
  handle (state_of [breakfast]) (SelectMeasurement 0 1 0 (of_Z 50))
  = state_of [breakfast].
Proof.
  refine (proj1 (proj2 (proj2
    (adjustment_out_of_range (state_of [breakfast]) 0 1 0 (of_Z 50) _)))).
  reflexivity.
Defined.

Lemma updated_state_twice st mi ii meal ing ing' :
  loggedMeals st !! mi = Some meal -> ingredients meal !! ii = Some ing ->
  updated_state mi ii ing' (updated_meal ii ing' meal)
    (updated_state mi ii ing' meal st)
  = updated_state mi ii ing' meal st.
Proof.
  intros Hm Hi.
  assert (Hmeal : updated_meal ii ing' (updated_meal ii ing' meal)
                  = updated_meal ii ing' meal).
  { unfold updated_meal. cbn. by rewrite list_insert_insert_eq. }
  unfold updated_state. rewrite Hmeal. cbn. by rewrite list_insert_insert_eq.
Qed.

(** X8. A reset is idempotent: handling the reset of an ingredient twice
    gives the state that handling it once gives.  For an ingredient that
    was never rescaled (no snapshot) the reset completes normally and
    changes nothing. *)
Theorem reset_idempotent (st : State) (mi ii : nat) :
  handle (handle st (ResetNutrition mi ii)) (ResetNutrition mi ii)
    = handle st (ResetNutrition mi ii) /\
  (forall ing : Ingredient,
     ingredient_at st mi ii = Some ing -> originalNutrients ing = None ->
     resetToOriginalNutrition mi ii st = Normal st).
Proof.
  split.
  - cbn [handle]. rewrite (resetToOriginalNutrition_cases mi ii st).
    destruct (loggedMeals st !! mi) as [meal|] eqn:Hm;
      [|cbn [settle]; rewrite resetToOriginalNutrition_cases; by rewrite Hm].
    destruct (ingredients meal !! ii) as [ing|] eqn:Hi;
      [|cbn [settle]; rewrite resetToOriginalNutrition_cases; by rewrite Hm, Hi].
    destruct (reset ing) as [ing'|] eqn:Hr;
      [|cbn [settle]; rewrite resetToOriginalNutrition_cases; by rewrite Hm, Hi, Hr].
    cbn [settle]. rewrite resetToOriginalNutrition_cases.
    pose proof (ingredient_at_updated st mi ii meal ing ing' Hm Hi) as Hat.
    destruct (ingredient_at_inv _ _ _ _ Hat) as (meal1 & Hm1 & Hi1).
    rewrite Hm1, Hi1.
    assert (Hmeal1 : meal1 = updated_meal ii ing' meal).
    { unfold updated_state in Hm1. cbn in Hm1.
      rewrite list_lookup_insert_eq in Hm1 by eauto using lookup_lt_Some.
      congruence. }
    assert (Hr' : reset ing' = Some ing').
    { unfold reset in Hr |- *. destruct (originalNutrients ing) as [o|] eqn:Ho;
        [|done]. injection Hr as <-. cbn. by rewrite Ho. }
    rewrite Hr'. cbn [settle]. subst meal1. by eapply updated_state_twice.
  - intros ing Hat Ho. rewrite resetToOriginalNutrition_cases.
    destruct (ingredient_at_inv _ _ _ _ Hat) as (meal & -> & ->).
    unfold reset. by rewrite Ho.
Qed.

(** The first ingredient of breakfast has no snapshot. *)
Lemma reset_idempotent_witness :
  resetToOriginalNutrition 0 0 (state_of [breakfast]) = Normal (state_of [breakfast]).
Proof.
  refine (proj2 (reset_idempotent (state_of [breakfast]) 0 0) _ _ _);
    reflexivity.
Defined.

Lemma same_identity_refl a : same_identity a a.
Proof. by repeat split. Qed.

Lemma same_identity_trans a b c :
  same_identity a b -> same_identity b c -> same_identity a c.
Proof.
  intros (?&?&?&?&?&?) (?&?&?&?&?&?). repeat split; congruence.
Qed.

Lemma adjust_same_identity ing a : same_identity ing (adjust ing a).
Proof.
  destruct a as [w|]; cbn [adjust].
  - destruct (rescale ing w) as [ing'|] eqn:Hr; [|apply same_identity_refl].
    apply rescale_inv in Hr as (_ & _ & ->). by repeat split.
  - unfold reset. destruct (originalNutrients ing); cbn; by repeat split.
Qed.

Lemma adjust_all_same_identity ing l : same_identity ing (adjust_all ing l).
Proof.
  revert ing. induction l as [|a l IH]; intros ing; [apply same_identity_refl|].
  change (adjust_all ing (a :: l)) with (adjust_all (adjust ing a) l).
  eapply same_identity_trans; [apply adjust_same_identity | apply IH].
Qed.

(** The reference weight is read from the fields that no handler
    assigns. *)
Lemma resolve_same_identity a b :
  same_identity a b ->
  resolveReferenceGramWeight a = resolveReferenceGramWeight b.
Proof.
  intros (_ & _ & Hs & Hf & _ & Hp). unfold resolveReferenceGramWeight.
  by rewrite Hs, Hf, Hp.
Qed.

Lemma rescale_ext a b w :
  same_identity a b -> pristine_nutrients a = pristine_nutrients b ->
  rescale a w = rescale b w.
Proof.
  intros Hid Hp. pose proof (resolve_same_identity _ _ Hid) as Hr.
  destruct Hid as (Hn & Hb & Hs & Hf & Hsp & Hai).
  unfold rescale. rewrite <- Hr.
  destruct ((resolveReferenceGramWeight a > zero)%js && (w > zero)%js); [|done].
  fold (pristine_nutrients a). fold (pristine_nutrients b). rewrite <- Hp.
  unfold set_nutrients, set_originalNutrients. cbn.
  by rewrite Hn, Hb, Hs, Hf, Hsp, Hai.
Qed.

(** X9. The last rescale wins: whatever rescales and resets an
    ingredient went through, a rescale that passes the guard leaves it
    exactly as the same rescale leaves the ingredient as first received.
    Rounding errors of earlier rescales do not accumulate, and repeating a
    rescale changes nothing. *)
Theorem rescale_history_independent (ing : Ingredient) (l : list adjustment)
    (w : number) :
  (resolveReferenceGramWeight ing > zero)%js = true ->
  (w > zero)%js = true ->
  adjust (adjust_all ing l) (Rescale w) = adjust ing (Rescale w) /\
  adjust (adjust ing (Rescale w)) (Rescale w) = adjust ing (Rescale w).
Proof.
  intros Hr Hw.
  assert (H : forall l', adjust (adjust_all ing l') (Rescale w)
                         = adjust ing (Rescale w)).
  { intros l'. cbn [adjust].
    rewrite <- (rescale_ext ing (adjust_all ing l') w)
      by (apply adjust_all_same_identity || (symmetry; apply adjust_all_pristine)).
    by rewrite (rescale_Some _ _ Hr Hw). }
  split; [apply H|]. apply (H [Rescale w]).
Qed.

(** 250 g, a reset and 40 g before 150 g, against 150 g at once. *)
Lemma rescale_history_independent_witness :
  adjust (adjust_all fine_grained [Rescale (of_Z 250); Reset; Rescale (of_Z 40)])
    (Rescale (of_Z 150))
  = adjust fine_grained (Rescale (of_Z 150)).
Proof.
  apply (rescale_history_independent fine_grained
           [Rescale (of_Z 250); Reset; Rescale (of_Z 40)] (of_Z 150));
    reflexivity.
Defined.

(** What a rescale or reset event does, with the position and the new
    ingredient named. *)
Lemma adjustment_effect st ev :
  is_adjustment ev ->
  handle st ev = st \/
  exists mi ii meal ing a,
    addressed ev = Some (mi, ii) /\
    loggedMeals st !! mi = Some meal /\ ingredients meal !! ii = Some ing /\
    handle st ev = updated_state mi ii (adjust ing a) meal st.
Proof.
  destruct ev as [| | |mi ii k w|mi ii w|mi ii]; try done; intros _; cbn [handle].
  - unfold selectMeasurement. rewrite recalculateIngredientNutrition_cases.
    destruct (loggedMeals st !! mi) as [meal|] eqn:Hm; [|by left].
    destruct (ingredients meal !! ii) as [ing|] eqn:Hi; [|by left].
    destruct (rescale ing w) as [ing'|] eqn:Hr; [|by left].
    right. exists mi, ii, meal, ing, (Rescale w). cbn [adjust]. by rewrite Hr.
  - unfold handleCustomGramInput.
    destruct (w > zero)%js;
      [rewrite recalculateIngredientNutrition_cases
      |rewrite resetToOriginalNutrition_cases];
      (destruct (loggedMeals st !! mi) as [meal|] eqn:Hm; [|by left]);
      (destruct (ingredients meal !! ii) as [ing|] eqn:Hi; [|by left]).
    + destruct (rescale ing w) as [ing'|] eqn:Hr; [|by left].
      right. exists mi, ii, meal, ing, (Rescale w). cbn [adjust]. by rewrite Hr.
    + destruct (reset ing) as [ing'|] eqn:Hr; [|by left].
      right. exists mi, ii, meal, ing, Reset. cbn [adjust]. by rewrite Hr.
  - rewrite resetToOriginalNutrition_cases.
    destruct (loggedMeals st !! mi) as [meal|] eqn:Hm; [|by left].
    destruct (ingredients meal !! ii) as [ing|] eqn:Hi; [|by left].
    destruct (reset ing) as [ing'|] eqn:Hr; [|by left].
    right. exists mi, ii, meal, ing, Reset. cbn [adjust]. by rewrite Hr.
Qed.

Lemma ingredient_at_updated_other st mi ii meal ing' mj ij :
  loggedMeals st !! mi = Some meal -> (mj, ij) <> (mi, ii) ->
  ingredient_at (updated_state mi ii ing' meal st) mj ij = ingredient_at st mj ij.
Proof.
  intros Hm Hne. unfold ingredient_at, updated_state. cbn.
  destruct (decide (mj = mi)) as [->|Hmj].
  - rewrite list_lookup_insert_eq by eauto using lookup_lt_Some. rewrite Hm. cbn.
    apply list_lookup_insert_ne. congruence.
  - by rewrite list_lookup_insert_ne.
Qed.

(** X10. A rescale or reset event touches one ingredient only.  The
    number of meals and every meal's name, size and number of ingredients
    stay the same; the ingredients at all other positions are untouched;
    and the addressed ingredient keeps its name, brand, serving text, food
    measures and portions, and the nutrients it was first received with
    (its snapshot, or its nutrients while there is none). *)
Theorem adjustment_frame (st : State) (ev : event) :
  is_adjustment ev ->
  length (loggedMeals (handle st ev)) = length (loggedMeals st) /\
  (forall (mi : nat) (meal : Meal),
     loggedMeals st !! mi = Some meal ->
     exists meal' : Meal,
       loggedMeals (handle st ev) !! mi = Some meal' /\
       meal_name meal' = meal_name meal /\ meal_size meal' = meal_size meal /\
       length (ingredients meal') = length (ingredients meal)) /\
  (forall mi ii : nat,
     addressed ev <> Some (mi, ii) ->
     ingredient_at (handle st ev) mi ii = ingredient_at st mi ii) /\
  (forall (mi ii : nat) (ing : Ingredient),
     ingredient_at st mi ii = Some ing ->
     exists ing' : Ingredient,
       ingredient_at (handle st ev) mi ii = Some ing' /\
       same_identity ing ing' /\
       pristine_nutrients ing' = pristine_nutrients ing).
Proof.
  intros Hev.
  destruct (adjustment_effect st ev Hev)
    as [-> | (mi0 & ii0 & meal0 & ing0 & a & Had & Hm & Hi & ->)].
  { repeat split; try done.
    - intros mi meal ->. by exists meal.
    - intros mi ii ing ->. exists ing. split; [done|].
      split; [apply same_identity_refl|done]. }
  split; [|split; [|split]].
  - unfold updated_state. cbn. apply length_insert.
  - intros mi meal Hmi. unfold updated_state. cbn.
    destruct (decide (mi = mi0)) as [->|Hne].
    + rewrite list_lookup_insert_eq by eauto using lookup_lt_Some.
      rewrite Hm in Hmi. injection Hmi as <-. eexists. split; [done|].
      unfold updated_meal. cbn. by rewrite length_insert.
    + rewrite list_lookup_insert_ne by done. by exists meal.
  - intros mi ii Hne. apply ingredient_at_updated_other; [done|]. congruence.
  - intros mi ii ing Hat.
    destruct (decide ((mi, ii) = (mi0, ii0))) as [[= -> ->]|Hne].
    + exists (adjust ing0 a). rewrite (ingredient_at_updated _ _ _ _ _ _ Hm Hi).
      unfold ingredient_at in Hat. rewrite Hm in Hat. cbn in Hat.
      rewrite Hi in Hat. injection Hat as <-.
      split; [done|]. split; [apply adjust_same_identity | apply adjust_pristine].
    + exists ing. rewrite ingredient_at_updated_other by done.
      split; [done|]. split; [apply same_identity_refl|done].
Qed.

(** The second ingredient of lunch when the first one is rescaled. *)
Lemma adjustment_frame_witness :
  ingredient_at
    (handle (state_of [breakfast; lunch]) (SelectMeasurement 1 0 0 (of_Z 125))) 1 1
  = ingredient_at (state_of [breakfast; lunch]) 1 1.
Proof.
  refine (proj1 (proj2 (proj2
    (adjustment_frame (state_of [breakfast; lunch])
       (SelectMeasurement 1 0 0 (of_Z 125)) I))) 1%nat 1%nat _).
  cbn. congruence.
Defined.

(** ** Signs of the numbers of a rescale *)

(** Rounding keeps the sign it is given. *)
Lemma binary_round_aux_sign sx mx ex lx :
  match binary_round_aux prec emax sx mx ex lx with
  | S754_zero s | S754_infinity s | S754_finite s _ _ => s = sx
  | S754_nan => True
  end.
Proof.
  unfold binary_round_aux.
  destruct (shr_fexp prec emax mx ex lx) as [mrs' e'].
  destruct (shr_fexp prec emax _ e' loc_Exact) as [mrs'' e''].
  destruct (shr_m mrs'') as [|m|m]; [done| |done].
  by destruct (e'' <=? emax - prec).
Qed.

Lemma binary_round_sign sx mx ex :
  match binary_round prec emax sx mx ex with
  | S754_zero s | S754_infinity s | S754_finite s _ _ => s = sx
  | S754_nan => True
  end.
Proof.
  unfold binary_round. destruct (shl_align _ _ _) as [mz ez].
  apply binary_round_aux_sign.
Qed.

(** [x < 0] is false exactly for NaN, the zeros and the values with a
    positive sign. *)
Lemma not_negative_iff x :
  (zero > x)%js = false <->
  match x with
  | S754_infinity s | S754_finite s _ _ => s = false
  | _ => True
  end.
Proof. by destruct x as [[]|[]| |[] m e]. Qed.

Lemma round_not_negative sx mx ex lx :
  sx = false -> (zero > binary_round_aux prec emax sx mx ex lx)%js = false.
Proof.
  intros ->. apply not_negative_iff.
  pose proof (binary_round_aux_sign false mx ex lx) as H.
  by destruct (binary_round_aux _ _ _ _ _ _).
Qed.

Lemma mul_not_negative x y :
  (zero > x)%js = false -> (zero > y)%js = false -> (zero > x * y)%js = false.
Proof.
  intros Hx%not_negative_iff Hy%not_negative_iff.
  destruct x as [sx|sx| |sx mx ex], y as [sy|sy| |sy my ey]; subst; try done.
  by apply round_not_negative.
Qed.

Lemma div_not_negative x y :
  (zero > x)%js = false -> (y > zero)%js = true -> (zero > x / y)%js = false.
Proof.
  intros Hx%not_negative_iff Hy.
  destruct x as [sx|sx| |sx mx ex], y as [[]|[]| |[] my ey]; subst; try done.
  unfold div, SFdiv.
  destruct (SFdiv_core_binary _ _ _ _ _ _) as [[mz ez] lz].
  by apply round_not_negative.
Qed.

Lemma of_Z_not_negative n : 0 <= n -> (zero > of_Z n)%js = false.
Proof.
  intros Hn. destruct n as [|p|p]; [done| |lia].
  apply not_negative_iff. unfold of_Z, binary_normalize.
  pose proof (binary_round_sign false p 0) as H.
  by destruct (binary_round _ _ _ _ _).
Qed.

Lemma Math_round_not_negative x :
  (zero > x)%js = false -> (zero > Math_round x)%js = false.
Proof.
  intros Hx. destruct x as [s|s| |s m e]; try done.
  apply not_negative_iff in Hx as ->. cbn [Math_round cond_Zopp].
  destruct (0 <=? e) eqn:He; [done|]. apply Z.leb_gt in He.
  destruct (Z.eqb_spec ((2 * Z.pos m + 2 ^ (- e)) / 2 ^ (1 - e)) 0); [done|].
  apply of_Z_not_negative. apply Z.div_pos.
  - assert (0 < 2 ^ (- e)) by (apply Z.pow_pos_nonneg; lia). lia.
  - apply Z.pow_pos_nonneg; lia.
Qed.

Lemma gt_zero_not_negative w : (w > zero)%js = true -> (zero > w)%js = false.
Proof. by destruct w as [[]|[]| |[] m e]. Qed.

(** X11. A rescale never makes a nutrient negative: when a nutrient of
    the values the ingredient was first received with is not below zero,
    the same nutrient after the rescale is not below zero either. *)
Theorem rescale_not_negative (ing : Ingredient) (w : number) (ing' : Ingredient)
    (f : field) :
  rescale ing w = Some ing' ->
  (zero > get f (pristine_nutrients ing))%js = false ->
  (zero > get f (nutrients ing'))%js = false.
Proof.
  intros Hr Hf. apply rescale_inv in Hr as (HR & Hw & ->).
  assert (Hm : (zero > w / resolveReferenceGramWeight ing)%js = false)
    by (apply div_not_negative; [by apply gt_zero_not_negative | done]).
  assert (Hten : (zero > of_Z 10)%js = false) by done.
  destruct f; cbn [get nutrients set_nutrients scaleNutrients calories protein
                   carbs fat] in *.
  - by apply Math_round_not_negative, mul_not_negative.
  - apply div_not_negative; [|done].
    by apply Math_round_not_negative, mul_not_negative; [apply mul_not_negative|].
  - apply div_not_negative; [|done].
    by apply Math_round_not_negative, mul_not_negative; [apply mul_not_negative|].
  - apply div_not_negative; [|done].
    by apply Math_round_not_negative, mul_not_negative; [apply mul_not_negative|].
Qed.

(** The protein of [fine_grained] rescaled to 40 g. *)
Lemma rescale_not_negative_witness :
  exists ing' : Ingredient,
    rescale fine_grained (of_Z 40) = Some ing' /\
    (zero > protein (nutrients ing'))%js = false.
Proof.
  eexists. split.
  - exact (rescale_Some fine_grained (of_Z 40) eq_refl eq_refl).
  - exact (rescale_not_negative fine_grained (of_Z 40) _ Protein
             (rescale_Some fine_grained (of_Z 40) eq_refl eq_refl) eq_refl).
Defined.

(** X12. A negative [ai_selected_portion.gramWeight] blocks rescaling
    altogether: being truthy it is taken as the reference weight, being
    different from zero it keeps the food measures from being consulted,
    and being negative it fails the guard.  No gram weight rescales such an
    ingredient, whatever its serving text and food measures say. *)
Theorem negative_ai_weight_blocks (ing : Ingredient) (portion : AiSelectedPortion) :
  ai_selected_portion ing = Some portion ->
  (zero > ai_gramWeight portion)%js = true ->
  resolveReferenceGramWeight ing = ai_gramWeight portion /\
  forall w : number, rescale ing w = None.
Proof.
  intros Hp Hneg.
  assert (Ht : ToBoolean (ai_gramWeight portion) = true)
    by (by destruct (ai_gramWeight portion) as [[]|[]| |[] m e]).
  assert (HR : resolveReferenceGramWeight ing = ai_gramWeight portion).
  { unfold resolveReferenceGramWeight.
    rewrite Hp, Ht, (truthy_not_zero _ Ht). by destruct (foodMeasures ing). }
  split; [done|]. intros w. unfold rescale. rewrite HR.
  by destruct (ai_gramWeight portion) as [[]|[]| |[] m e].
Qed.

(** [miscalibrated] has an AI weight of -30 and 30 g everywhere else. *)
Lemma negative_ai_weight_blocks_witness :
  rescale miscalibrated (of_Z 60) = None.
Proof.
  refine (proj2 (negative_ai_weight_blocks miscalibrated _ eq_refl _) (of_Z 60)).
  reflexivity.
Defined.

(** ** The weight written in the serving text *)

Lemma shr_1_nonneg mrs : 0 <= shr_m mrs -> 0 <= shr_m (shr_1 mrs).
Proof. destruct mrs as [[|[p|p|]|p] r s]; cbn; lia. Qed.

Lemma shr_fexp_nonneg m e l :
  0 <= m -> 0 <= shr_m (fst (shr_fexp prec emax m e l)).
Proof.
  intros Hm. unfold shr_fexp, shr.
  assert (H0 : 0 <= shr_m (shr_record_of_loc m l)) by (by destruct l as [|[]]).
  destruct (fexp prec emax (Zdigits2 m + e) - e) as [|p|p]; cbn [fst]; try done.
  rewrite iter_pos_Pos_iter. apply Pos.iter_invariant; [|done].
  intros mrs. apply shr_1_nonneg.
Qed.

(** Rounding a non-negative mantissa never gives NaN. *)
Lemma binary_round_aux_not_nan sx mx ex lx :
  0 <= mx -> is_nan (binary_round_aux prec emax sx mx ex lx) = false.
Proof.
  intros Hm. unfold binary_round_aux.
  pose proof (shr_fexp_nonneg mx ex lx Hm) as H1.
  destruct (shr_fexp prec emax mx ex lx) as [mrs' e']. cbn [fst] in H1.
  assert (H2 : 0 <= round_nearest_even (shr_m mrs') (loc_of_shr_record mrs')).
  { unfold round_nearest_even.
    destruct (loc_of_shr_record mrs') as [|[]]; try done; [|lia].
    destruct (Z.even (shr_m mrs')); lia. }
  pose proof (shr_fexp_nonneg _ e' loc_Exact H2) as H3.
  destruct (shr_fexp prec emax _ e' loc_Exact) as [mrs'' e'']. cbn [fst] in H3.
  destruct (shr_m mrs'') as [|m|m]; [done| |lia].
  by destruct (e'' <=? emax - prec).
Qed.

Lemma of_Z_not_nan n : is_nan (of_Z n) = false.
Proof.
  destruct n as [|p|p]; [done| |]; unfold of_Z, binary_normalize, binary_round;
    destruct (shl_align _ _ _) as [mz ez];
    by apply binary_round_aux_not_nan.
Qed.

Lemma decimal_value_nonneg s acc :
  all_digits s = true -> 0 <= acc -> 0 <= decimal_value acc s.
Proof.
  revert acc. induction s as [|c s IH]; intros acc; [done|]. cbn.
  intros [Hc Hs]%andb_true_iff Hacc. apply IH; [done|].
  unfold is_digit in Hc. apply andb_true_iff in Hc as [Hlo _].
  apply N.leb_le in Hlo. unfold digit_value. lia.
Qed.

(** X13. Without a usable AI weight and without food measures, the
    reference weight is the number read from the serving text, or zero
    when there is none: it is never NaN and never negative, so the guard
    of a rescale can fail on it only by its being zero. *)
Theorem serving_weight_sign (ing : Ingredient) :
  no_ai_weight ing ->
  foodMeasures ing = [] ->
  is_nan (resolveReferenceGramWeight ing) = false /\
  (zero > resolveReferenceGramWeight ing)%js = false.
Proof.
  intros Hno Hf.
  assert (HR : resolveReferenceGramWeight ing
               = match match_gram (serving_info ing) with
                 | Some digits => parseFloat digits
                 | None => zero
                 end).
  { unfold no_ai_weight in Hno. unfold resolveReferenceGramWeight. rewrite Hf.
    destruct (ai_selected_portion ing) as [portion|]; [|done]. by rewrite Hno. }
  rewrite HR. destruct (match_gram (serving_info ing)) as [ds|] eqn:Hm; [|done].
  apply match_gram_sound in Hm.
  rewrite (first_gram_parseFloat _ _ Hm).
  destruct Hm as (_ & _ & _ & _ & Hds & _).
  split; [apply of_Z_not_nan|].
  apply of_Z_not_negative. by apply decimal_value_nonneg.
Qed.

(** Breakfast's only ingredient, "100g". *)
Lemma serving_weight_sign_witness :
  (zero > resolveReferenceGramWeight
            (ingredient_of "100g"
               (nutrients_of (of_Z 200) (of_Z 10) (of_Z 20) (of_Z 5))))%js = false.
Proof.
  refine (proj2 (serving_weight_sign _ _ _)); [exact I | reflexivity].
Defined.

Lemma append_assoc s t u : (s +:+ t) +:+ u = s +:+ (t +:+ u).
Proof.
  induction s as [|c s IH]; [done|]. by rewrite !append_String, IH.
Qed.

Lemma digit_then_g_dot pre : digit_then_g (pre +:+ ".") = digit_then_g pre.
Proof.
  induction pre as [|c pre IH]; [done|]. string_simpl. rewrite IH.
  by destruct pre.
Qed.

Lemma ends_with_digit_dot pre : ends_with_digit (pre +:+ ".") = false.
Proof.
  induction pre as [|c pre IH]; [done|]. rewrite append_String.
  destruct pre as [|c' pre]; [done|]. exact IH.
Qed.

Lemma resolve_from_serving ing ds :
  no_ai_weight ing -> first_gram (serving_info ing) ds ->
  (of_Z (decimal_value 0 ds) === zero)%js = false ->
  resolveReferenceGramWeight ing = of_Z (decimal_value 0 ds).
Proof.
  intros Hno Hf Hz. unfold no_ai_weight in Hno.
  unfold resolveReferenceGramWeight.
  rewrite (match_gram_first _ _ Hf), (first_gram_parseFloat _ _ Hf).
  destruct (ai_selected_portion ing) as [portion|]; rewrite ?Hno, Hz;
    by destruct (foodMeasures ing).
Qed.

(** X14. A weight written with a decimal point is read from its
    fractional digits alone.  When the serving text has no digit followed
    by [g] before a decimal point, and the point is followed by digits and
    then [g], the pattern captures exactly the digits after the point, and
    (there being no usable AI weight, and that number not being zero) the
    reference weight is the integer they write. *)
Theorem decimal_serving_weight (ing : Ingredient) (pre ds post : string) :
  no_ai_weight ing ->
  serving_info ing = pre +:+ "." +:+ ds +:+ String "g" post ->
  digit_then_g pre = false ->
  ds <> EmptyString ->
  all_digits ds = true ->
  match_gram (serving_info ing) = Some ds /\
  ((of_Z (decimal_value 0 ds) === zero)%js = false ->
   resolveReferenceGramWeight ing = of_Z (decimal_value 0 ds)).
Proof.
  intros Hno Hs Hpre Hne Hds.
  assert (Hf : first_gram (serving_info ing) ds).
  { exists (pre +:+ "."), post. rewrite Hs, append_assoc.
    repeat split; try done.
    - apply ends_with_digit_dot.
    - by rewrite digit_then_g_dot. }
  split; [by apply match_gram_first|]. intros Hz.
  by apply resolve_from_serving.
Qed.

(** "1 tsp (4.25g)" gives 25. *)
Lemma decimal_serving_weight_witness :
  resolveReferenceGramWeight spoonful = of_Z 25.
Proof.
  refine (proj2 (decimal_serving_weight spoonful "1 tsp (4" "25" ")" _ _ _ _ _) _).
  - exact I.
  - reflexivity.
  - reflexivity.
  - discriminate.
  - reflexivity.
  - reflexivity.
Defined.

(** ** The progress simulation *)

Lemma tick_invariant s :
  simulation_invariant s ->
  simulation_invariant (tick s) /\
  (shownProgress (tick s) = shownProgress s \/
   shownProgress (tick s) = shownProgress s + 1).
Proof.
  destruct s as [cp k msg stg shown]. unfold simulation_invariant. cbn.
  intros (-> & Hrange & Htexts).
  destruct k as [|[|[|[|k]]]]; cbn in Hrange; try done; unfold tick; cbn;
    (match goal with
     | |- context [cp <? ?b] => destruct (Z.ltb_spec cp b) as [Hlt|Hge]
     end; cbn;
     [ split; [|by right]; split; [done|]; split; [lia|];
       unfold texts_at;
       repeat match goal with
              | |- context [cp + 1 <=? ?b] =>
                  destruct (Z.leb_spec (cp + 1) b); try lia
              end; done
     | split; [|by left]; split; [done|]; split; [lia|done] ]).
Qed.

Lemma ticks_invariant n : simulation_invariant (ticks n).
Proof.
  induction n as [|n IH]; [by repeat split|].
  change (ticks (S n)) with (tick (ticks n)). by apply tick_invariant.
Qed.

(** X15. However often the timer has fired, the simulated progress
    stays between 5 and 85 percent (the simulation alone never shows the
    request as complete), it is the value of the counter, each firing
    leaves it as it is or raises it by one, the stage index stays inside
    the table of stages, and the two texts shown are those of the range
    the percentage lies in. *)
Theorem progress_simulation_bounded (n : nat) :
  5 <= shownProgress (ticks n) <= 85 /\
  shownProgress (ticks n) = currentProgress (ticks n) /\
  (shownProgress (ticks (S n)) = shownProgress (ticks n) \/
   shownProgress (ticks (S n)) = shownProgress (ticks n) + 1) /\
  is_Some (stages !! stageIndex (ticks n)) /\
  (loadingMessage (ticks n), loadingStage (ticks n))
  = texts_at (shownProgress (ticks n)).
Proof.
  pose proof (ticks_invariant n) as Hinv.
  pose proof (tick_invariant _ Hinv) as [_ Hstep].
  destruct Hinv as (Hshown & Hrange & Htexts).
  split; [|split; [done|split; [exact Hstep|split; [|done]]]].
  - rewrite Hshown.
    destruct (stageIndex (ticks n)) as [|[|[|[|k]]]]; cbn in Hrange; lia.
  - destruct (stageIndex (ticks n)) as [|[|[|[|k]]]]; cbn in Hrange; try done;
      by eexists.
Qed.

Lemma ticks_add n m : ticks (n + m) = Nat.iter n tick (ticks m).
Proof. unfold ticks. by rewrite Nat.iter_add. Qed.

Lemma tick_final : tick (ticks 83) = ticks 83.
Proof. by vm_compute. Qed.

(** X16. The simulation reaches 85 percent when the timer has fired 83
    times (80 increments and 3 changes of stage), not before, and from
    then on every firing leaves the state as it is, showing "Calculating
    totals..." until the response is handled. *)
Theorem progress_simulation_completes (n : nat) :
  ((n < 83)%nat -> shownProgress (ticks n) < 85) /\
  ((83 <= n)%nat ->
   ticks n = ticks 83 /\ shownProgress (ticks n) = 85 /\
   loadingMessage (ticks n) = "Calculating totals...").
Proof.
  split.
  - intros Hn.
    assert (Hall : forallb (fun k => shownProgress (ticks k) <? 85) (seq 0 83)
                   = true) by (by vm_compute).
    rewrite forallb_forall in Hall.
    apply Z.ltb_lt, Hall, in_seq. lia.
  - intros Hn.
    assert (Hfix : forall k, Nat.iter k tick (ticks 83) = ticks 83).
    { induction k as [|k IH]; [done|].
      change (Nat.iter (S k) tick (ticks 83))
        with (tick (Nat.iter k tick (ticks 83))).
      rewrite IH. apply tick_final. }
    assert (Heq : ticks n = ticks 83).
    { replace n with ((n - 83) + 83)%nat by lia. rewrite ticks_add. apply Hfix. }
    rewrite Heq. clear. vm_compute. repeat split.
Qed.

(** After 40 firings, and after 200. *)
Lemma progress_simulation_completes_witness :
  shownProgress (ticks 40) < 85 /\ shownProgress (ticks 200) = 85.
Proof.
  split.
  - apply (proj1 (progress_simulation_completes 40)). lia.
  - apply (proj2 (progress_simulation_completes 200)). lia.
Defined.

(** ** The webpack hook *)

(** X17. The webpack hook leaves a client configuration exactly as it
    is.  On a server configuration it switches [__dirname] and [__filename]
    on, keeps every other option of [config.node] and the rest of the
    configuration, and applying it again changes nothing. *)
Theorem webpack_hook {Rest : Type} (config : WebpackConfig Rest) :
  webpack config false = config /\
  (exists options : gmap string NodeOption,
     node (webpack config true) = Some options /\
     options !! "__dirname" = Some (OptionFlag true) /\
     options !! "__filename" = Some (OptionFlag true) /\
     forall key : string,
       key <> "__dirname" -> key <> "__filename" ->
       options !! key = default ∅ (node config) !! key) /\
  rest (webpack config true) = rest config /\
  webpack (webpack config true) true = webpack config true.
Proof.
  split; [done|]. split; [|split; [done|]].
  - eexists. split; [done|]. split; [|split].
    + by rewrite lookup_insert_ne, lookup_insert_eq.
    + by rewrite lookup_insert_eq.
    + intros key H1 H2. by rewrite !lookup_insert_ne.
  - unfold webpack. cbn. do 2 f_equal.
    set (m := default ∅ (node config)).
    apply map_eq. intros key.
    destruct (decide (key = "__filename")) as [->|H2];
      [by rewrite !lookup_insert_eq|].
    rewrite !(lookup_insert_ne _ "__filename") by done.
    destruct (decide (key = "__dirname")) as [->|H1];
      [by rewrite !lookup_insert_eq|].
    by rewrite !lookup_insert_ne by congruence.
Qed.

(** ** Invariants of the store *)






(** X19. Logging one meal and then removing the last meal of the list
    gives back the meal list as it was, and, in a state whose daily totals
    are the sum of its meals, the daily totals as they were. *)
Theorem log_then_remove (st : State) (err : option string)
    (serviceTotals : Nutrients) (meal : Meal) :
  all_whitespace (foodInput st) = false ->
  let logged :=
    logFood (FetchResponse true
               (inr {| api_error := err; api_dailyTotals := Some serviceTotals;
                       api_loggedMeals := Some [meal] |})) st in
  loggedMeals logged = loggedMeals st ++ [meal] /\
  loggedMeals (removeMeal (length (loggedMeals st)) logged) = loggedMeals st /\
  (dailyTotals st = sumMeals (loggedMeals st) ->
   dailyTotals (removeMeal (length (loggedMeals st)) logged) = dailyTotals st).
Proof.
  intros (c & s & Ht)%logFood_nonblank logged.
  assert (Hl : loggedMeals logged = loggedMeals st ++ [meal]).
  { unfold logged, logFood. by rewrite Ht. }
  assert (Hr : loggedMeals (removeMeal (length (loggedMeals st)) logged)
               = loggedMeals st).
  { rewrite removeMeal_loggedMeals, Hl.
    rewrite take_app_length, drop_ge by (rewrite length_app; cbn; lia).
    apply app_nil_r. }
  split; [done|]. split; [done|]. intros Hd.
  assert (Hdaily : dailyTotals (removeMeal (length (loggedMeals st)) logged)
                   = sumMeals (loggedMeals (removeMeal (length (loggedMeals st))
                                              logged))) by done.
  by rewrite Hdaily, Hr.
Qed.

(** Dinner logged after breakfast, and removed again. *)
Lemma log_then_remove_witness :
  loggedMeals
    (removeMeal 1
       (logFood (FetchResponse true (inr (single_response dinner)))
          (state_of [breakfast])))
  = [breakfast].
Proof.
  exact (proj1 (proj2 (log_then_remove (state_of [breakfast]) None zeroNutrients
                         dinner eq_refl))).
Defined.
